(** * polymer-build: the build analyzer and its stream loader

    A shallow embedding of [BuildAnalyzer] and [StreamLoader] (analyzer.ts):
    the file store, the table of deferred loads, the dependency index and
    the completion check [_done].  Mutable fields of the two classes become
    one explicit [State]; a method becomes a computation in a state monad
    with exceptions in which, as in JavaScript, a [throw] keeps every
    mutation made before it. *)

From Stdlib Require Import Ascii String.
From stdpp Require Import gmap strings list fin_maps pretty.

(** ** Data model *)

(** A JavaScript [Error], identified with its message. *)
Abbreviation Error := string (only parsing).
Abbreviation ResolvedUrl := string (only parsing).

(** A vinyl [File]: its path and its contents. *)
Record File := mkFile { path : string; contents : string }.

(** [Severity] of polymer-analyzer. *)
Inductive Severity := ERROR | WARNING | INFO.

Global Instance Severity_eq_dec : EqDecision Severity.
Proof. solve_decision. Defined.

Definition Severity_to_nat (s : Severity) : nat :=
  match s with ERROR => 0 | WARNING => 1 | INFO => 2 end.

Definition Severity_of_nat (n : nat) : option Severity :=
  match n with 0 => Some ERROR | 1 => Some WARNING | 2 => Some INFO | _ => None end.

Global Instance Severity_countable : Countable Severity.
Proof.
  apply (inj_countable Severity_to_nat Severity_of_nat).
  intros []; reflexivity.
Defined.

(** A [Warning] object.  [warnings] is a [Set<Warning>], a set of objects:
    [wid] stands for the identity of the object. *)
Record Warning := mkWarning {
  wid : nat;
  severity : Severity;
  code : string;
  wmessage : string }.

Global Instance Warning_eq_dec : EqDecision Warning.
Proof. solve_decision. Defined.

Record DocumentDeps := mkDeps {
  imports : list ResolvedUrl;
  scripts : list ResolvedUrl;
  styles : list ResolvedUrl }.

Record DepsIndex := mkIndex {
  depsToFragments : gmap string (list ResolvedUrl);
  fragmentToDeps : gmap string (list ResolvedUrl);
  fragmentToFullDeps : gmap string DocumentDeps }.

(** The promise made by one call of [StreamLoader.load]. *)
Inductive PromiseState :=
  | Pending
  | Fulfilled (v : string)
  | Rejected (e : Error).

(** One import feature reported by the analyzer for a document. *)
Record ImportFeature := mkFeature { furl : string; ftype : string }.

(** What [analyzer.analyze([url])] followed by [getDocument(url)] gives:
    a failure with its message, or a document with its warnings
    ([getWarnings({imported: true})]) and its import features. *)
Inductive AnalysisResult :=
  | AnalysisFailed (msg : string)
  | AnalysisOk (ws : list Warning) (features : list ImportFeature).

(** Outcome of a method call: a value or a thrown error. *)
Inductive Result (A : Type) :=
  | Val (a : A)
  | Exn (e : Error).
Arguments Val {A} a.
Arguments Exn {A} e.

(** The configuration and the collaborators that are not part of
    analyzer.ts: path-transformers, [path], [url], the project
    configuration and polymer-analyzer. *)
Record Env := mkEnv {
  (** [analyzer.resolveUrl(urlFromPath(config.root, p))]; [urlFromPath]
      throws for a path outside the root. *)
  resolvePath : string → Result ResolvedUrl;
  (** [analyzer.resolveUrl] on the url of an import feature. *)
  resolveUrl : string → option ResolvedUrl;
  (** [path.normalize]. *)
  pathNormalize : string → string;
  pathFromResolvedUrl : ResolvedUrl → string;
  (** [config.isSource], [config.isFragment]. *)
  isSource : string → bool;
  isFragment : string → bool;
  (** [parse(url).protocol]. *)
  urlProtocol : string → option string;
  (** [WarningFilter.shouldIgnore]. *)
  shouldIgnore : Warning → bool }.

(** ** State of a [BuildAnalyzer] and its [StreamLoader] *)

Record State := mkState {
  sourceFilesLoaded : bool;
  files : gmap string File;
  (** [Set<Warning>], in insertion order. *)
  warnings : list Warning;
  allFragmentsToAnalyze : gset string;
  _dependencyAnalysis : DepsIndex;
  (** The value [analyzeDependencies] was resolved with, if it was. *)
  analyzeDependencies : option DepsIndex;
  (** [loader.deferredFiles]: a [Map] in insertion order, from a url to
      the promise whose resolve and reject callbacks are registered. *)
  deferredFiles : list (ResolvedUrl * nat);
  (** The promises made by [load] so far; a promise is its index. *)
  promises : list PromiseState;
  (** The paths pushed into [_dependenciesStream], oldest first. *)
  _dependenciesStream : list string;
  _dependenciesStreamEnded : bool;
  (** The ['error'] events emitted on the two processing streams. *)
  _sourcesProcessingStream : list Error;
  _dependenciesProcessingStream : list Error }.

Definition set_sourceFilesLoaded (b : bool) (s : State) : State :=
  mkState b (files s) (warnings s) (allFragmentsToAnalyze s)
    (_dependencyAnalysis s) (analyzeDependencies s) (deferredFiles s)
    (promises s) (_dependenciesStream s) (_dependenciesStreamEnded s)
    (_sourcesProcessingStream s) (_dependenciesProcessingStream s).

Definition set_files (m : gmap string File) (s : State) : State :=
  mkState (sourceFilesLoaded s) m (warnings s) (allFragmentsToAnalyze s)
    (_dependencyAnalysis s) (analyzeDependencies s) (deferredFiles s)
    (promises s) (_dependenciesStream s) (_dependenciesStreamEnded s)
    (_sourcesProcessingStream s) (_dependenciesProcessingStream s).

Definition set_warnings (ws : list Warning) (s : State) : State :=
  mkState (sourceFilesLoaded s) (files s) ws (allFragmentsToAnalyze s)
    (_dependencyAnalysis s) (analyzeDependencies s) (deferredFiles s)
    (promises s) (_dependenciesStream s) (_dependenciesStreamEnded s)
    (_sourcesProcessingStream s) (_dependenciesProcessingStream s).

Definition set_allFragmentsToAnalyze (fs : gset string) (s : State) : State :=
  mkState (sourceFilesLoaded s) (files s) (warnings s) fs
    (_dependencyAnalysis s) (analyzeDependencies s) (deferredFiles s)
    (promises s) (_dependenciesStream s) (_dependenciesStreamEnded s)
    (_sourcesProcessingStream s) (_dependenciesProcessingStream s).

Definition set_dependencyAnalysis (i : DepsIndex) (s : State) : State :=
  mkState (sourceFilesLoaded s) (files s) (warnings s) (allFragmentsToAnalyze s)
    i (analyzeDependencies s) (deferredFiles s)
    (promises s) (_dependenciesStream s) (_dependenciesStreamEnded s)
    (_sourcesProcessingStream s) (_dependenciesProcessingStream s).

Definition set_analyzeDependencies (r : option DepsIndex) (s : State) : State :=
  mkState (sourceFilesLoaded s) (files s) (warnings s) (allFragmentsToAnalyze s)
    (_dependencyAnalysis s) r (deferredFiles s)
    (promises s) (_dependenciesStream s) (_dependenciesStreamEnded s)
    (_sourcesProcessingStream s) (_dependenciesProcessingStream s).

Definition set_deferredFiles (d : list (ResolvedUrl * nat)) (s : State) : State :=
  mkState (sourceFilesLoaded s) (files s) (warnings s) (allFragmentsToAnalyze s)
    (_dependencyAnalysis s) (analyzeDependencies s) d
    (promises s) (_dependenciesStream s) (_dependenciesStreamEnded s)
    (_sourcesProcessingStream s) (_dependenciesProcessingStream s).

Definition set_promises (ps : list PromiseState) (s : State) : State :=
  mkState (sourceFilesLoaded s) (files s) (warnings s) (allFragmentsToAnalyze s)
    (_dependencyAnalysis s) (analyzeDependencies s) (deferredFiles s)
    ps (_dependenciesStream s) (_dependenciesStreamEnded s)
    (_sourcesProcessingStream s) (_dependenciesProcessingStream s).

Definition set_dependenciesStream (l : list string) (s : State) : State :=
  mkState (sourceFilesLoaded s) (files s) (warnings s) (allFragmentsToAnalyze s)
    (_dependencyAnalysis s) (analyzeDependencies s) (deferredFiles s)
    (promises s) l (_dependenciesStreamEnded s)
    (_sourcesProcessingStream s) (_dependenciesProcessingStream s).

Definition set_dependenciesStreamEnded (b : bool) (s : State) : State :=
  mkState (sourceFilesLoaded s) (files s) (warnings s) (allFragmentsToAnalyze s)
    (_dependencyAnalysis s) (analyzeDependencies s) (deferredFiles s)
    (promises s) (_dependenciesStream s) b
    (_sourcesProcessingStream s) (_dependenciesProcessingStream s).

Definition set_sourcesProcessingStream (l : list Error) (s : State) : State :=
  mkState (sourceFilesLoaded s) (files s) (warnings s) (allFragmentsToAnalyze s)
    (_dependencyAnalysis s) (analyzeDependencies s) (deferredFiles s)
    (promises s) (_dependenciesStream s) (_dependenciesStreamEnded s)
    l (_dependenciesProcessingStream s).

Definition set_dependenciesProcessingStream (l : list Error) (s : State) : State :=
  mkState (sourceFilesLoaded s) (files s) (warnings s) (allFragmentsToAnalyze s)
    (_dependencyAnalysis s) (analyzeDependencies s) (deferredFiles s)
    (promises s) (_dependenciesStream s) (_dependenciesStreamEnded s)
    (_sourcesProcessingStream s) l.

(** The analyzer as its constructor leaves it, for a set of fragments
    ([config.allFragments], resolved). *)
Definition initial (fragments : gset string) : State :=
  mkState false ∅ [] fragments (mkIndex ∅ ∅ ∅) None [] [] [] false [] [].

(** ** The monad of method bodies *)

Definition M (A : Type) : Type := State → State * Result A.

Definition ret {A} (a : A) : M A := λ s, (s, Val a).

Definition bind {A B} (c : M A) (k : A → M B) : M B :=
  λ s, match c s with
       | (s', Val a) => k a s'
       | (s', Exn e) => (s', Exn e)
       end.

Definition throw {A} (e : Error) : M A := λ s, (s, Exn e).

(** [try { c } catch (err) { h err }] *)
Definition try_catch {A} (c : M A) (h : Error → M A) : M A :=
  λ s, match c s with
       | (s', Val a) => (s', Val a)
       | (s', Exn e) => h e s'
       end.

Definition get : M State := λ s, (s, Val s).
Definition modify (f : State → State) : M unit := λ s, (f s, Val tt).

Notation "'let*' x := c1 'in' c2" := (bind c1 (λ x, c2))
  (at level 10, x name, c1 at level 100, c2 at level 200).
Notation "c1 ;; c2" := (bind c1 (λ _, c2))
  (at level 100, c2 at level 200, right associativity).

(** [for (const k of map.keys()) body(k)]: the iteration of a [Map] is
    live, an entry deleted before it is reached is not visited.  [live]
    tells whether the key is still in the map; [body] returns [true] for a
    [return] out of the enclosing function. *)
Fixpoint for_keys (live : ResolvedUrl → State → bool)
    (body : ResolvedUrl → M bool) (ks : list ResolvedUrl) : M bool :=
  match ks with
  | [] => ret false
  | k :: rest =>
      let* s := get in
      if live k s
      then (let* stop := body k in
            if stop then ret true else for_keys live body rest)
      else for_keys live body rest
  end.

Definition lift_result {A} (r : Result A) : M A :=
  match r with
  | Val a => ret a
  | Exn e => throw e
  end.

(** ** [Map] and [Set] operations, in insertion order *)

Fixpoint dget (k : ResolvedUrl) (d : list (ResolvedUrl * nat)) : option nat :=
  match d with
  | [] => None
  | (k', p) :: r => if decide (k' = k) then Some p else dget k r
  end.

(** [Map.set]: the value of a key already present is replaced in place,
    a new key goes to the end. *)
Fixpoint dset (k : ResolvedUrl) (p : nat) (d : list (ResolvedUrl * nat))
    : list (ResolvedUrl * nat) :=
  match d with
  | [] => [(k, p)]
  | (k', p') :: r => if decide (k' = k) then (k, p) :: r else (k', p') :: dset k p r
  end.

Definition ddelete (k : ResolvedUrl) (d : list (ResolvedUrl * nat))
    : list (ResolvedUrl * nat) :=
  filter (λ kp, kp.1 ≠ k) d.

Definition dhas (k : ResolvedUrl) (d : list (ResolvedUrl * nat)) : bool :=
  match dget k d with Some _ => true | None => false end.

(** [Set.add]. *)
Definition set_add `{EqDecision A} (x : A) (l : list A) : list A :=
  if decide (x ∈ l) then l else l ++ [x].

(** Calling the resolve or the reject callback of promise [p]: a promise
    is settled once. *)
Definition settle (p : nat) (st : PromiseState) (ps : list PromiseState)
    : list PromiseState :=
  match ps !! p with
  | Some Pending => <[p := st]> ps
  | _ => ps
  end.

(** The double quote character, for error messages. *)
Definition dquote : string := String "034"%char EmptyString.

(** ** [StreamLoader] *)

Definition hasDeferredFile (url : ResolvedUrl) : M bool :=
  let* s := get in ret (dhas url (deferredFiles s)).

Definition resolveDeferredFile (url : ResolvedUrl) (file : File) : M unit :=
  let* s := get in
  match dget url (deferredFiles s) with
  | None => throw "TypeError: Cannot read property 'resolve' of undefined"
  | Some p =>
      modify (λ s, set_promises (settle p (Fulfilled (contents file)) (promises s)) s) ;;
      modify (λ s, set_deferredFiles (ddelete url (deferredFiles s)) s)
  end.

Definition rejectDeferredFile (url : ResolvedUrl) (err : Error) : M unit :=
  let* s := get in
  match dget url (deferredFiles s) with
  | None => throw "TypeError: Cannot read property 'reject' of undefined"
  | Some p =>
      modify (λ s, set_promises (settle p (Rejected err) (promises s)) s) ;;
      modify (λ s, set_deferredFiles (ddelete url (deferredFiles s)) s)
  end.

Definition canLoad (env : Env) (url : ResolvedUrl) : bool :=
  bool_decide (urlProtocol env url = Some "file:").

(** ** [BuildAnalyzer]: what the loader calls *)

Definition sourceUrlAnalyzed (url : ResolvedUrl) : M unit :=
  let* s := get in
  if sourceFilesLoaded s
  then throw ("Not found: " +:+ dquote +:+ url +:+ dquote)
  else ret tt.

Definition dependencyUrlAnalyzed (env : Env) (url : ResolvedUrl) : M unit :=
  let* s := get in
  match files s !! url with
  | Some _ => ret tt
  | None =>
      modify (λ s, set_dependenciesStream
                     (_dependenciesStream s ++ [pathFromResolvedUrl env url]) s)
  end.

(** [load] is an [async] function: whatever happens the caller gets a
    promise, here the index of a new entry of [promises]. *)
Definition load (env : Env) (url : ResolvedUrl) : M nat :=
  let* s := get in
  let p := length (promises s) in
  let new_promise st := modify (λ s, set_promises (promises s ++ [st]) s) in
  if negb (canLoad env url)
  then new_promise (Rejected "Unable to load ${url}.") ;; ret p
  else
    match files s !! url with
    | Some file => new_promise (Fulfilled (contents file)) ;; ret p
    | None =>
        new_promise Pending ;;
        (* the executor of [new Promise]; an error it throws rejects [p] *)
        try_catch
          (modify (λ s, set_deferredFiles (dset url p (deferredFiles s)) s) ;;
           try_catch
             (if isSource env (pathFromResolvedUrl env url)
              then sourceUrlAnalyzed url
              else dependencyUrlAnalyzed env url)
             (λ err, rejectDeferredFile url err))
          (λ err, modify (λ s, set_promises (settle p (Rejected err) (promises s)) s)) ;;
        ret p
    end.

(** ** [BuildAnalyzer] *)

(** [addFile] stores the file under the url of its normalized path. *)
Definition addFile (env : Env) (file : File) : M unit :=
  let filepath := pathNormalize env (path file) in
  let* url := lift_result (resolvePath env filepath) in
  modify (λ s, set_files (<[url := file]> (files s)) s).

Definition resolveFile (env : Env) (file : File) : M unit :=
  let filePath := path file in
  let* url := lift_result (resolvePath env filePath) in
  addFile env file ;;
  let* waiting := hasDeferredFile url in
  if waiting then resolveDeferredFile url file else ret tt.

(** One turn of the loop over the import features in [_getDependencies];
    the accumulator holds the three sets [scripts], [styles], [imports]. *)
Definition classify (env : Env) (acc : DocumentDeps) (f : ImportFeature)
    : DocumentDeps :=
  let importUrl := furl f in
  match resolveUrl env importUrl with
  | None => acc
  | Some _ =>
      if decide (ftype f = "html-script")
      then mkDeps (imports acc) (set_add importUrl (scripts acc)) (styles acc)
      else if decide (ftype f = "html-style")
      then mkDeps (imports acc) (scripts acc) (set_add importUrl (styles acc))
      else if decide (ftype f = "html-import")
      then mkDeps (set_add importUrl (imports acc)) (scripts acc) (styles acc)
      else acc
  end.

(** [_getDependencies], given what the analyzer answers for [url]. *)
Definition _getDependencies (env : Env) (url : ResolvedUrl) (res : AnalysisResult)
    : M DocumentDeps :=
  match res with
  | AnalysisFailed msg =>
      let message := if decide (msg = EmptyString) then "unknown" else msg in
      throw ("Unable to get document " +:+ url +:+ ": " +:+ message)
  | AnalysisOk ws features =>
      modify (λ s, set_warnings
                     (foldl (λ acc w, set_add w acc) (warnings s)
                        (filter (λ w, shouldIgnore env w = false) ws)) s) ;;
      ret (foldl (classify env) (mkDeps [] [] []) features)
  end.

(** One turn of [deps.imports.forEach] in [_addDependencies].  The
    parameter of the callback is named [url] as well and hides the url of
    the fragment: the value pushed is the import itself. *)
Definition addToFragments (m : gmap string (list ResolvedUrl)) (url : ResolvedUrl)
    : gmap string (list ResolvedUrl) :=
  match m !! url with
  | Some entrypointList => <[url := entrypointList ++ [url]]> m
  | None => <[url := [url]]> m
  end.

Definition _addDependencies (url : ResolvedUrl) (deps : DocumentDeps) : M unit :=
  let* s := get in
  if bool_decide (url ∈ allFragmentsToAnalyze s)
  then
    modify (λ s,
      let i := _dependencyAnalysis s in
      set_dependencyAnalysis
        (mkIndex (foldl addToFragments (depsToFragments i) (imports deps))
                 (<[url := imports deps]> (fragmentToDeps i))
                 (<[url := deps]> (fragmentToFullDeps i))) s)
  else throw ("Dependency analysis incorrectly called for " +:+ url).

(** [countWarningsByType].  [errorCountMap.get(k)! + 1] is a number only
    when [k] is in the map: [None] stands for a count that is not. *)
Definition countWarning (acc : option (gmap Severity nat)) (w : Warning)
    : option (gmap Severity nat) :=
  match acc with
  | None => None
  | Some errorCountMap =>
      match errorCountMap !! severity w with
      | Some n => Some (<[severity w := n + 1]> errorCountMap)
      | None => None
      end
  end.

Definition countWarningsByType (ws : list Warning) : option (gmap Severity nat) :=
  foldl countWarning (Some (<[ERROR := 0]> (<[WARNING := 0]> (<[INFO := 0]> ∅)))) ws.

Definition emitAnalysisError (err : Error) : M unit :=
  modify (λ s, set_sourcesProcessingStream (_sourcesProcessingStream s ++ [err]) s) ;;
  modify (λ s, set_dependenciesProcessingStream
                 (_dependenciesProcessingStream s ++ [err]) s).

Definition live_deferred (url : ResolvedUrl) (s : State) : bool :=
  dhas url (deferredFiles s).

(** [_done].  [printWarnings] writes to the standard output and changes
    nothing here.  A count that is missing compares false with [0]. *)
Definition _done : M unit :=
  let* s := get in
  let allWarningCount := countWarningsByType (warnings s) in
  let errorWarningCount := allWarningCount ≫= (λ m, m !! ERROR) in
  if match errorWarningCount with Some n => bool_decide (0 < n) | None => false end
  then
    emitAnalysisError
      (pretty (default 0 errorWarningCount) +:+ " error(s) occurred during build.")
  else
    let* returned :=
      for_keys live_deferred
        (λ url, rejectDeferredFile url ("Not found: " +:+ url) ;; ret true)
        (deferredFiles s).*1 in
    if returned then ret tt
    else
      modify (set_dependenciesStreamEnded true) ;;
      modify (λ s, match analyzeDependencies s with
                   | None => set_analyzeDependencies (Some (_dependencyAnalysis s)) s
                   | Some _ => s
                   end).

(** [analyzeFile], given what the analyzer answers for the file.  The
    body runs in one piece from the answer of the analyzer on. *)
Definition analyzeFile (env : Env) (file : File) (res : AnalysisResult) : M unit :=
  let filePath := path file in
  if isFragment env filePath
  then
    let* url := lift_result (resolvePath env filePath) in
    let* deps := _getDependencies env url res in
    _addDependencies url deps ;;
    modify (λ s, set_allFragmentsToAnalyze (allFragmentsToAnalyze s ∖ {[url]}) s) ;;
    let* s := get in
    if bool_decide (size (allFragmentsToAnalyze s) = 0) then _done else ret tt
  else ret tt.

Definition onSourcesStreamComplete (env : Env) : M unit :=
  let* s := get in
  for_keys live_deferred
    (λ url,
       let filePath := pathFromResolvedUrl env url in
       if isSource env filePath
       then rejectDeferredFile url ("Not found: " +:+ url) ;; ret false
       else ret false)
    (deferredFiles s).*1 ;;
  modify (set_sourceFilesLoaded true).

(** ** Runs *)

(** What can happen to an analyzer: a file arrives at a [ResolveTransform]
    (from the sources stream or from the dependencies stream), a file
    arrives at the [AnalyzeTransform] and the analyzer answers, the sources
    stream ends, the analyzer asks the loader for a url, a stage adds a
    generated file. *)
Inductive Op :=
  | OpResolveFile (file : File)
  | OpAnalyzeFile (file : File) (res : AnalysisResult)
  | OpSourcesStreamComplete
  | OpLoad (url : ResolvedUrl)
  | OpAddFile (file : File).

Global Instance File_eq_dec : EqDecision File.
Proof. solve_decision. Defined.

Global Instance ImportFeature_eq_dec : EqDecision ImportFeature.
Proof. solve_decision. Defined.

Global Instance AnalysisResult_eq_dec : EqDecision AnalysisResult.
Proof. solve_decision. Defined.

Global Instance Op_eq_dec : EqDecision Op.
Proof. solve_decision. Defined.

Definition run_op (env : Env) (op : Op) : M unit :=
  match op with
  | OpResolveFile file => resolveFile env file
  | OpAnalyzeFile file res => analyzeFile env file res
  | OpSourcesStreamComplete => onSourcesStreamComplete env
  | OpLoad url => load env url ;; ret tt
  | OpAddFile file => addFile env file
  end.

(** The state after an operation, whether it threw or not. *)
Definition step (env : Env) (s : State) (op : Op) : State := (run_op env op s).1.

Definition run (env : Env) (s : State) (ops : list Op) : State :=
  foldl (step env) s ops.

(** ** Notions used to state the properties *)

(** How many warnings of a list have a given severity. *)
Definition count_severity (sev : Severity) (ws : list Warning) : nat :=
  length (filter (λ w, severity w = sev) ws).

(** The reverse list of [d] holds [d] itself. *)
Definition lists_itself (m : gmap string (list string)) (d : string) : Prop :=
  ∃ l, m !! d = Some l ∧ d ∈ l.

(** No reverse list holds [f]. *)
Definition absent_from_lists (m : gmap string (list string)) (f : string) : Prop :=
  ∀ d l, m !! d = Some l → f ∉ l.

(** The error [_done] emits for [n] warnings of severity ERROR. *)
Definition severityError (n : nat) : Error :=
  pretty n +:+ " error(s) occurred during build.".

(** [c] never changes the part [proj] of the state, thrown error or not. *)
Definition preserves {A B} (proj : State → B) (c : M A) : Prop :=
  ∀ s, proj (c s).1 = proj s.

(** The warnings after those of a document are added. *)
Definition analyzed_warnings (env : Env) (ws : list Warning) (s : State)
    : list Warning :=
  foldl (λ acc w, set_add w acc) (warnings s)
    (filter (λ w, shouldIgnore env w = false) ws).

(** The dependencies [_getDependencies] returns for the features of a
    document. *)
Definition document_deps (env : Env) (features : list ImportFeature) : DocumentDeps :=
  foldl (classify env) (mkDeps [] [] []) features.

(** The state after a pending fragment is analyzed, before [_done]. *)
Definition analyzed (env : Env) (url : ResolvedUrl) (ws : list Warning)
    (features : list ImportFeature) (s : State) : State :=
  let deps := document_deps env features in
  set_allFragmentsToAnalyze (allFragmentsToAnalyze s ∖ {[url]})
    (set_dependencyAnalysis
       (mkIndex
          (foldl addToFragments (depsToFragments (_dependencyAnalysis s)) (imports deps))
          (<[url := imports deps]> (fragmentToDeps (_dependencyAnalysis s)))
          (<[url := deps]> (fragmentToFullDeps (_dependencyAnalysis s))))
       (set_warnings (analyzed_warnings env ws s) s)).

(** What decides whether the index is handed out: the fragments still to
    analyze and the promise [analyzeDependencies]. *)
Definition gate (s : State) : gset string * option DepsIndex :=
  (allFragmentsToAnalyze s, analyzeDependencies s).

(** While fragments are still to be analyzed, [analyzeDependencies] is
    not resolved. *)
Definition gate_invariant (s : State) : Prop :=
  analyzeDependencies s ≠ None → allFragmentsToAnalyze s = ∅.

(** The table and the promises once the executor of [load] has made a
    new promise and registered its callbacks. *)
Definition registered (url : ResolvedUrl) (s : State) : State :=
  set_deferredFiles (dset url (length (promises s)) (deferredFiles s))
    (set_promises (promises s ++ [Pending]) s).

(** ** The canonical resolver *)

(** The two path separators. *)
Definition slash : ascii := "047"%char.
Definition backslash : ascii := "092"%char.
Definition percent : ascii := "037"%char.

Definition is_separator (c : ascii) : bool :=
  bool_decide (c = slash) || bool_decide (c = backslash).

(** The segments of a path, split at every separator of either platform. *)
Fixpoint segments_of (p : string) : list string :=
  match p with
  | EmptyString => [EmptyString]
  | String c rest =>
      if is_separator c then EmptyString :: segments_of rest
      else match segments_of rest with
           | seg :: segs => String c seg :: segs
           | [] => [String c EmptyString]
           end
  end.

(** Empty segments and [.] are dropped, [..] leaves the directory (and
    stays at the top of the file system). *)
Definition normalize_step (stack : list string) (seg : string) : list string :=
  if decide (seg = EmptyString) then stack
  else if decide (seg = ".") then stack
  else if decide (seg = "..") then removelast stack
  else stack ++ [seg].

Definition normalize_segments (segs : list string) : list string :=
  foldl normalize_step [] segs.

(** The characters that are written as they are: letters, digits and
    [-], [.], [_], [~]. *)
Definition unreserved (c : ascii) : bool :=
  let n := nat_of_ascii c in
  (48 <=? n) && (n <=? 57) || (65 <=? n) && (n <=? 90) ||
  (97 <=? n) && (n <=? 122) ||
  (n =? 45) || (n =? 46) || (n =? 95) || (n =? 126).

Definition hex_digit (n : nat) : ascii :=
  match String.get n "0123456789ABCDEF" with
  | Some c => c
  | None => "0"%char
  end.

Definition hex_value (c : ascii) : option nat :=
  let n := nat_of_ascii c in
  if (48 <=? n) && (n <=? 57) then Some (n - 48)
  else if (65 <=? n) && (n <=? 70) then Some (n - 55)
  else if (97 <=? n) && (n <=? 102) then Some (n - 87)
  else None.

Definition encode_char (c : ascii) : string :=
  if unreserved c then String c EmptyString
  else String percent
         (String (hex_digit (nat_of_ascii c / 16))
            (String (hex_digit (nat_of_ascii c mod 16)) EmptyString)).

Fixpoint percent_encode (s : string) : string :=
  match s with
  | EmptyString => EmptyString
  | String c rest => encode_char c +:+ percent_encode rest
  end.

Fixpoint percent_decode (s : string) : string :=
  match s with
  | EmptyString => EmptyString
  | String c rest =>
      if bool_decide (c = percent)
      then match rest with
           | String h (String l rest') =>
               match hex_value h, hex_value l with
               | Some a, Some b =>
                   String (ascii_of_nat (16 * a + b)) (percent_decode rest')
               | _, _ => String c (percent_decode rest)
               end
           | _ => String c (percent_decode rest)
           end
      else String c (percent_decode rest)
  end.

(** A segment with no separator in it. *)
Fixpoint no_separator (s : string) : bool :=
  match s with
  | EmptyString => true
  | String c rest => negb (is_separator c) && no_separator rest
  end.

(** A segment as [normalize_segments] leaves them. *)
Definition clean (seg : string) : Prop :=
  seg ≠ EmptyString ∧ seg ≠ "." ∧ seg ≠ ".." ∧ no_separator seg = true.

(** A path is contained in the root when, both written without [.], [..]
    and empty segments, the segments of the root begin those of the
    path. *)
Definition contained (root p : string) : Prop :=
  normalize_segments (segments_of root) `prefix_of`
  normalize_segments (segments_of p).

(** Modelled from the spec: [resolve] of the Canonical Resolver
    ([urlFromPath] of path-transformers.ts, which is not among the
    sources).  The id of a path is root-relative, has [/] between its
    segments whatever separators the path was written with, and has the
    characters that are not unreserved percent-encoded; a path that is not
    contained in the root fails with [PathEscapesRoot]. *)
Definition resolve (root p : string) : Result string :=
  let rs := normalize_segments (segments_of root) in
  let ps := normalize_segments (segments_of p) in
  if bool_decide (rs `prefix_of` ps)
  then Val (String.concat "/" (percent_encode <$> drop (length rs) ps))
  else Exn "PathEscapesRoot".

Inductive Platform := Posix | Win32.

Definition separator_of (pf : Platform) : ascii :=
  match pf with Posix => slash | Win32 => backslash end.

Fixpoint with_separator (sep : ascii) (s : string) : string :=
  match s with
  | EmptyString => EmptyString
  | String c rest =>
      String (if bool_decide (c = slash) then sep else c) (with_separator sep rest)
  end.

(** Modelled from the spec: [toPath] of the Canonical Resolver
    ([pathFromUrl] of path-transformers.ts, which is not among the
    sources).  The path of an id is the root followed by the decoded id,
    written with the separator of the platform. *)
Definition toPath (pf : Platform) (root id : string) : string :=
  root +:+ String (separator_of pf) (with_separator (separator_of pf) (percent_decode id)).

(** ** A sample project *)

(** Root-relative paths stand for their urls; [index.html] and
    [shared.html] are the sources, [index.html] is the one fragment. *)
Definition sample_env : Env :=
  mkEnv (λ p, Val p) (λ u, Some u) (λ p, p) (λ u, u)
    (λ p, bool_decide (p = "index.html") || bool_decide (p = "shared.html"))
    (λ p, bool_decide (p = "index.html"))
    (λ _, Some "file:")
    (λ _, false).

Definition index_html : File := mkFile "index.html" "<link rel=import href=shared.html>".

Definition error_warning : Warning := mkWarning 0 ERROR "could-not-load" "Unable to load import".

(** The analyzer of the sample project before anything happened. *)
Definition sample_start : State := initial {[ "index.html" ]}.

(** What the analysis of [index.html] finds: an import of a source and a
    style sheet that is not a source. *)
Definition sample_deps : DocumentDeps := mkDeps ["shared.html"] [] ["style.css"].

(** The style sheet was asked for once and is not loaded yet. *)
Definition style_requested : State := step sample_env sample_start (OpLoad "style.css").

(** Two dependencies were asked for and are not loaded yet. *)
Definition two_requested : State :=
  run sample_env sample_start [OpLoad "a.css"; OpLoad "b.css"].

(** The one fragment was analyzed and found to depend on nothing. *)
Definition index_analyzed : State :=
  step sample_env sample_start (OpAnalyzeFile index_html (AnalysisOk [] [])).

(** A first [index.html] went through the resolve stage. *)
Definition index_resolved : State :=
  step sample_env sample_start (OpResolveFile (mkFile "index.html" "old")).

(** ** Invariants of a run *)

(** [c] keeps the invariant [I], thrown error or not. *)
Definition keeps {A} (I : State → Prop) (c : M A) : Prop :=
  ∀ s, I s → I (c s).1.

(** The table of deferred loads is sound: its urls are distinct, its
    promises are distinct, and each of them is still pending. *)
Definition table_ok (s : State) : Prop :=
  NoDup (deferredFiles s).*1 ∧ NoDup (deferredFiles s).*2 ∧
  ∀ u p, (u, p) ∈ deferredFiles s → promises s !! p = Some Pending.

(** What the loader owns. *)
Definition loader_state (s : State) : list (ResolvedUrl * nat) * list PromiseState :=
  (deferredFiles s, promises s).

(** The url is one of a declared source. *)
Definition source_url (env : Env) (url : ResolvedUrl) : bool :=
  isSource env (pathFromResolvedUrl env url).

(** The "Not found" error of [onSourcesStreamComplete] and [_done]. *)
Definition notFound (url : ResolvedUrl) : Error := "Not found: " +:+ url.

(** The body of the loop of [onSourcesStreamComplete]. *)
Definition reject_missing_source (env : Env) (url : ResolvedUrl) : M bool :=
  let filePath := pathFromResolvedUrl env url in
  if isSource env filePath
  then rejectDeferredFile url ("Not found: " +:+ url) ;; ret false
  else ret false.

(** What the completion gate and the index consist of. *)
Definition index_state (s : State)
    : gset string * option DepsIndex * DepsIndex * bool :=
  (allFragmentsToAnalyze s, analyzeDependencies s, _dependencyAnalysis s,
   _dependenciesStreamEnded s).

(** The index in a run that started with the given fragments: a fragment
    is still to be analyzed or has its entries; the two maps keyed by
    fragment agree; and once [analyzeDependencies] is resolved, it is with
    the index as it stands, no fragment is left and the dependencies
    stream is ended. *)
Definition index_ok (fragments : gset string) (s : State) : Prop :=
  (∀ f, f ∈ fragments →
        f ∈ allFragmentsToAnalyze s ∨
        is_Some (fragmentToFullDeps (_dependencyAnalysis s) !! f)) ∧
  (∀ f, fragmentToDeps (_dependencyAnalysis s) !! f
        = imports <$> fragmentToFullDeps (_dependencyAnalysis s) !! f) ∧
  (∀ i, analyzeDependencies s = Some i →
        i = _dependencyAnalysis s ∧ allFragmentsToAnalyze s = ∅ ∧
        _dependenciesStreamEnded s = true).

(** The analyzer reports a feature of the given type whose url is [u] and
    can be resolved. *)
Definition reported (env : Env) (kind : string) (features : list ImportFeature)
    (u : string) : Prop :=
  ∃ f, f ∈ features ∧ furl f = u ∧ ftype f = kind ∧ is_Some (resolveUrl env u).

(** A fragment that is still to be analyzed has no entry in the index. *)
Definition pending_fresh (s : State) : Prop :=
  ∀ f, f ∈ allFragmentsToAnalyze s →
       fragmentToFullDeps (_dependencyAnalysis s) !! f = None.

(** ** [SourceDependenciesStream] (streams.ts) *)

(** What [_getDependencies] of the stream answers for a file: an error, or
    the dependencies of the document, each list of which may be missing
    ([DocumentDeps] of streams.ts has optional fields). *)
Record StreamDeps := mkStreamDeps {
  sd_imports : option (list string);
  sd_scripts : option (list string);
  sd_styles : option (list string) }.

Inductive StreamAnalysis :=
  | StreamAnalysisFailed (err : Error)
  | StreamAnalysisOk (allDeps : StreamDeps).

(** The stream: the set [files] in insertion order and the paths of the
    files pushed so far, oldest first. *)
Record Stream := mkStream {
  stream_files : list string;
  stream_pushed : list string }.

Definition new_stream : Stream := mkStream [] [].

(** [pushDependency]; [matchesSource] stands for
    [minimatchAll(dependencyPath, this.sourceGlobs)]. *)
Definition pushDependency (matchesSource : string → bool)
    (st : Stream) (dependencyPath : string) : Stream :=
  if decide (dependencyPath ∈ stream_files st) then st
  else if matchesSource dependencyPath then st
  else mkStream (stream_files st ++ [dependencyPath])
                (stream_pushed st ++ [dependencyPath]).

(** [list.forEach(this.pushDependency.bind(this))] on a list that may be
    [undefined]. *)
Definition pushAll (matchesSource : string → bool) (st : Stream)
    (l : option (list string)) : Stream * Result unit :=
  match l with
  | Some deps => (foldl (pushDependency matchesSource) st deps, Val tt)
  | None => (st, Exn "TypeError: Cannot read property 'forEach' of undefined")
  end.

(** [_transform], given the extension of the file and the answer of
    [_getDependencies]; the result is what [callback] is called with, the
    stream never passes the file on. *)
Definition _transform (matchesSource : string → bool) (extname : string → string)
    (filePath : string) (analysis : StreamAnalysis) (st : Stream)
    : Stream * Result unit :=
  if decide (filePath ∈ stream_files st) then (st, Val tt)
  else if decide (extname filePath ≠ ".html") then (st, Val tt)
  else
    match analysis with
    | StreamAnalysisFailed err => (st, Exn err)
    | StreamAnalysisOk allDeps =>
        match pushAll matchesSource st (sd_imports allDeps) with
        | (st1, Exn e) => (st1, Exn e)
        | (st1, Val _) =>
            match pushAll matchesSource st1 (sd_scripts allDeps) with
            | (st2, Exn e) => (st2, Exn e)
            | (st2, Val _) => pushAll matchesSource st2 (sd_styles allDeps)
            end
        end
    end.

(** The stream after the files of a list went through [_transform]. *)
Definition transform_all (matchesSource : string → bool) (extname : string → string)
    (st : Stream) (inputs : list (string * StreamAnalysis)) : Stream :=
  foldl (λ st i, (_transform matchesSource extname i.1 i.2 st).1) st inputs.

(** The set of the stream and what it pushed are the same list, without
    repetition and without a path of the sources. *)
Definition stream_ok (matchesSource : string → bool) (st : Stream) : Prop :=
  stream_files st = stream_pushed st ∧ NoDup (stream_pushed st) ∧
  Forall (λ p, matchesSource p = false) (stream_pushed st).

(** Pushing the path again changes nothing. *)
Definition absorbed (matchesSource : string → bool) (st : Stream) (p : string) : Prop :=
  p ∈ stream_files st ∨ matchesSource p = true.

(** ** [BuildBundler] (bundle.ts) *)

(** [_mapFile]: the file is stored in [_files] under the url of its path;
    [urlFromPath] throws for a path outside the root. *)
Definition _mapFile (env : Env) (file : File) (_files : gmap string File)
    : Result (gmap string File) :=
  match resolvePath env (path file) with
  | Val url => Val (<[url := file]> _files)
  | Exn e => Exn e
  end.

(** [for await (const file of files) this._mapFile(file)] in
    [_transformIter]. *)
Definition mapFiles (env : Env) (incoming : list File) (_files : gmap string File)
    : Result (gmap string File) :=
  foldl (λ acc file, match acc with
                     | Val m => _mapFile env file m
                     | Exn e => Exn e
                     end)
    (Val _files) incoming.

(** What a bundle of the manifest inlined. *)
Record Bundle := mkBundle {
  inlinedHtmlImports : list ResolvedUrl;
  inlinedScripts : list ResolvedUrl;
  inlinedStyles : list ResolvedUrl }.

Definition inlined (b : Bundle) : list ResolvedUrl :=
  inlinedHtmlImports b ++ inlinedScripts b ++ inlinedStyles b.

(** [_unmapBundledFiles], for the bundles of the manifest. *)
Definition _unmapBundledFiles (bundles : list Bundle) (_files : gmap string File)
    : gmap string File :=
  foldl (λ m b, foldl (λ m filename, delete filename m) m (inlined b)) _files bundles.

(** [_getFilesChangedSinceInitialAnalysis]: [analyzerFiles] are the
    entries of [_buildAnalyzer.files] in the order of the iteration,
    [relative] stands for [urlResolver.relative]. *)
Definition _getFilesChangedSinceInitialAnalysis (relative : ResolvedUrl → string)
    (analyzerFiles : list (ResolvedUrl * File)) (_files : gmap string File)
    : list string :=
  omap (λ entry,
          match _files !! entry.1 with
          | Some downstreamFile =>
              if decide (contents downstreamFile ≠ contents entry.2)
              then Some (relative entry.1)
              else None
          | None => None
          end)
    analyzerFiles.

(** ** [writeServiceWorker] (service-worker.ts) *)

(** [s.substring(n)]. *)
Fixpoint string_drop (n : nat) (s : string) : string :=
  match n, s with
  | S n', String _ rest => string_drop n' rest
  | _, _ => s
  end.

(** The options [writeServiceWorker] reads; [staticFileGlobs] is that of
    [swConfig]. *)
Record SWOptions := mkSWOptions {
  buildRoot : string;
  root : string;
  entrypoint : string;
  serviceWorkerPath : string;
  precachedAssets : option (list string);
  staticFileGlobs : option (list string) }.

(** The assets after the loop that strips the root prefix. *)
Definition strippedAssets (o : SWOptions) : list string :=
  (λ p, if String.prefix (root o) p then string_drop (String.length (root o)) p else p)
    <$> default [] (precachedAssets o).

(** The elements of the set [precacheFiles], in insertion order. *)
Definition precacheFiles (o : SWOptions) : list string :=
  let mainHtml := string_drop (String.length (root o)) (entrypoint o) in
  set_add mainHtml
    (foldl (λ acc p, set_add p acc)
       (foldl (λ acc p, set_add p acc) [] (default [] (staticFileGlobs o)))
       (strippedAssets o)).

(** The [staticFileGlobs] handed to [swPrecache.write]; [pathJoin] stands
    for [path.join]. *)
Definition precacheList (pathJoin : string → string → string) (o : SWOptions)
    : list string :=
  pathJoin (buildRoot o) <$> precacheFiles o.

(** ** Samples for the further properties *)

Definition style_css : File := mkFile "style.css" "body{}".

Definition sample_options : SWOptions :=
  mkSWOptions "build" "/proj" "/proj/index.html" EmptyString
    (Some ["/proj/src/app.js"; "/other/lib.js"]) (Some ["/images/*"]).

(** [path.join] on a directory without a trailing separator and a path
    without [.] or [..]: one separator between the two. *)
Definition sample_join (a b : string) : string :=
  if String.prefix "/" b then a +:+ b else a +:+ "/" +:+ b.

(** * Properties *)

(** ** The monad *)

(** Runs a method body as far as the state at hand allows. *)
Ltac msimpl :=
  repeat (progress
            (unfold bind, ret, throw, try_catch, get, modify, lift_result; cbn)).

Arguments ddelete : simpl never.
Arguments dset : simpl never.
Arguments settle : simpl never.
Arguments _addDependencies : simpl never.
Arguments _done : simpl never.
Arguments rejectDeferredFile : simpl never.

(** ** The severity tally *)

Lemma count_severity_cons sev w ws :
  count_severity sev (w :: ws) =
  (if decide (severity w = sev) then 1 else 0) + count_severity sev ws.
Proof.
  unfold count_severity. rewrite filter_cons.
  destruct (decide (severity w = sev)); reflexivity.
Qed.

Lemma count_severity_total ws :
  count_severity INFO ws + count_severity WARNING ws + count_severity ERROR ws
  = length ws.
Proof.
  induction ws as [|w ws IH]; [reflexivity|].
  rewrite !count_severity_cons. cbn [length].
  destruct (severity w); repeat case_decide; try congruence; lia.
Qed.

Lemma countWarning_foldl ws : ∀ m : gmap Severity nat,
  (∀ sev, is_Some (m !! sev)) →
  ∃ m', foldl countWarning (Some m) ws = Some m' ∧
        ∀ sev, m' !! sev = (λ n, n + count_severity sev ws) <$> (m !! sev).
Proof.
  induction ws as [|w ws IH]; intros m Hm.
  - exists m. split; [reflexivity|]. intros sev.
    destruct (Hm sev) as [n ->]. cbn. f_equal. unfold count_severity. cbn. lia.
  - cbn [foldl countWarning].
    destruct (Hm (severity w)) as [n Hn]. rewrite Hn.
    destruct (IH (<[severity w := n + 1]> m)) as (m' & Hfold & Hm').
    { intros sev. rewrite lookup_insert. case_decide; [eauto | apply Hm]. }
    exists m'. split; [exact Hfold|].
    intros sev. rewrite Hm', lookup_insert, count_severity_cons.
    destruct (decide (severity w = sev)) as [Heq|Hne].
    + rewrite <- Heq, Hn. cbn. f_equal. lia.
    + destruct (Hm sev) as [k ->]. reflexivity.
Qed.

Lemma countWarningsByType_lookup ws :
  ∃ m, countWarningsByType ws = Some m ∧
       ∀ sev, m !! sev = Some (count_severity sev ws).
Proof.
  unfold countWarningsByType.
  destruct (countWarning_foldl ws (<[ERROR := 0]> (<[WARNING := 0]> (<[INFO := 0]> ∅))))
    as (m & Hfold & Hm).
  { intros []; eexists; reflexivity. }
  exists m. split; [exact Hfold|].
  intros sev. rewrite Hm. destruct sev; reflexivity.
Qed.

(** C10: the tally of [countWarningsByType] is defined for every set of
    warnings, has a count for each of INFO, WARNING and ERROR, these
    counts add up to the number of warnings, and the lookup of the ERROR
    count that [_done] makes finds a number. *)
Theorem C10_tally_has_all_severities (ws : list Warning) :
  ∃ (m : gmap Severity nat) (i w e : nat),
    countWarningsByType ws = Some m ∧
    m !! INFO = Some i ∧ m !! WARNING = Some w ∧ m !! ERROR = Some e ∧
    i + w + e = length ws ∧
    (countWarningsByType ws ≫= λ m, m !! ERROR) = Some (count_severity ERROR ws).
Proof.
  destruct (countWarningsByType_lookup ws) as (m & Hm & Hlook).
  exists m, (count_severity INFO ws), (count_severity WARNING ws),
    (count_severity ERROR ws).
  rewrite Hm. repeat split; try apply Hlook.
  apply count_severity_total.
Qed.

(** ** The dependency index *)

Lemma addToFragments_lists_itself m d : lists_itself (addToFragments m d) d.
Proof.
  unfold lists_itself, addToFragments.
  destruct (m !! d) as [l|]; eexists; rewrite lookup_insert_eq;
    (split; [reflexivity | set_solver]).
Qed.

Lemma addToFragments_keeps_itself m a d :
  lists_itself m d → lists_itself (addToFragments m a) d.
Proof.
  intros (l & Hl & Hin).
  destruct (decide (a = d)) as [->|Hne]; [apply addToFragments_lists_itself|].
  exists l. split; [|exact Hin].
  unfold addToFragments. destruct (m !! a); rewrite lookup_insert_ne; done.
Qed.

Lemma addToFragments_keeps_absent m a f :
  a ≠ f → absent_from_lists m f → absent_from_lists (addToFragments m a) f.
Proof.
  intros Hne Habs d l. unfold addToFragments.
  destruct (m !! a) as [la|] eqn:Ha; rewrite lookup_insert; case_decide.
  - intros [= <-]. specialize (Habs a la Ha).
    intros [Hin|Hin%list_elem_of_singleton]%elem_of_app; [by apply Habs | congruence].
  - apply Habs.
  - intros [= <-]. intros Hin%list_elem_of_singleton. congruence.
  - apply Habs.
Qed.

Lemma foldl_addToFragments_itself ds : ∀ m d,
  d ∈ ds ∨ lists_itself m d → lists_itself (foldl addToFragments m ds) d.
Proof.
  induction ds as [|a ds IH]; intros m d [Hin|Hm]; cbn [foldl].
  - set_solver.
  - exact Hm.
  - apply IH. apply elem_of_cons in Hin as [->|Hin]; [right|left; exact Hin].
    apply addToFragments_lists_itself.
  - apply IH. right. by apply addToFragments_keeps_itself.
Qed.

Lemma foldl_addToFragments_absent ds : ∀ m f,
  f ∉ ds → absent_from_lists m f →
  absent_from_lists (foldl addToFragments m ds) f.
Proof.
  induction ds as [|a ds IH]; intros m f Hnin Hm; cbn [foldl]; [exact Hm|].
  apply IH; [set_solver|]. apply addToFragments_keeps_absent; [set_solver|exact Hm].
Qed.

Lemma _addDependencies_pending (url : ResolvedUrl) (deps : DocumentDeps) (s : State) :
  url ∈ allFragmentsToAnalyze s →
  _addDependencies url deps s =
  (set_dependencyAnalysis
     (mkIndex
        (foldl addToFragments (depsToFragments (_dependencyAnalysis s)) (imports deps))
        (<[url := imports deps]> (fragmentToDeps (_dependencyAnalysis s)))
        (<[url := deps]> (fragmentToFullDeps (_dependencyAnalysis s)))) s,
   Val tt).
Proof.
  intros Hin. unfold _addDependencies. msimpl.
  rewrite bool_decide_eq_true_2 by exact Hin. reflexivity.
Qed.

Lemma _addDependencies_not_pending (url : ResolvedUrl) (deps : DocumentDeps) (s : State) :
  url ∉ allFragmentsToAnalyze s →
  _addDependencies url deps s =
  (s, Exn ("Dependency analysis incorrectly called for " +:+ url)).
Proof.
  intros Hin. unfold _addDependencies. msimpl.
  rewrite bool_decide_eq_false_2 by exact Hin. reflexivity.
Qed.

(** C1, as the code behaves: when the index is updated for a pending
    fragment [f] that no reverse list holds yet and that does not import
    itself, the reverse list of every import [d] holds [d] and does not
    hold [f]. *)
Theorem C1_reverse_list_holds_import_not_fragment
    (s : State) (f : ResolvedUrl) (deps : DocumentDeps) :
  f ∈ allFragmentsToAnalyze s →
  f ∉ imports deps →
  absent_from_lists (depsToFragments (_dependencyAnalysis s)) f →
  ∃ s', _addDependencies f deps s = (s', Val tt) ∧
        ∀ d, d ∈ imports deps →
             ∃ l, depsToFragments (_dependencyAnalysis s') !! d = Some l ∧
                  d ∈ l ∧ f ∉ l.
Proof.
  intros Hpending Hself Habs. eexists. split.
  - apply _addDependencies_pending, Hpending.
  - intros d Hd. cbn.
    destruct (foldl_addToFragments_itself (imports deps)
                (depsToFragments (_dependencyAnalysis s)) d (or_introl Hd))
      as (l & Hl & Hin).
    exists l. repeat split; [exact Hl | exact Hin |].
    eapply foldl_addToFragments_absent; eauto.
Qed.

(** ** The loader *)

Lemma dhas_dget k d : dhas k d = true ↔ is_Some (dget k d).
Proof.
  unfold dhas. destruct (dget k d); split; intros H; try done; eauto.
Qed.

Lemma ddelete_head k p d : ddelete k ((k, p) :: d) = ddelete k d.
Proof.
  unfold ddelete. rewrite filter_cons_False; [reflexivity|].
  cbn. intros H. apply H. reflexivity.
Qed.

Lemma rejectDeferredFile_registered url err p s :
  dget url (deferredFiles s) = Some p →
  rejectDeferredFile url err s =
  (set_deferredFiles (ddelete url (deferredFiles s))
     (set_promises (settle p (Rejected err) (promises s)) s), Val tt).
Proof. intros H. unfold rejectDeferredFile. msimpl. rewrite H. reflexivity. Qed.

(** ** The completion check *)

Lemma _done_errors s :
  0 < count_severity ERROR (warnings s) →
  _done s =
  (set_dependenciesProcessingStream
     (_dependenciesProcessingStream s ++ [severityError (count_severity ERROR (warnings s))])
     (set_sourcesProcessingStream
        (_sourcesProcessingStream s ++ [severityError (count_severity ERROR (warnings s))])
        s), Val tt).
Proof.
  intros Hpos. unfold _done, emitAnalysisError. msimpl.
  destruct (countWarningsByType_lookup (warnings s)) as (m & -> & Hm).
  msimpl. rewrite Hm. msimpl. rewrite bool_decide_eq_true_2 by exact Hpos.
  reflexivity.
Qed.

Lemma _done_first_deferred s u p rest :
  count_severity ERROR (warnings s) = 0 →
  deferredFiles s = (u, p) :: rest →
  _done s =
  (set_deferredFiles (ddelete u rest)
     (set_promises (settle p (Rejected ("Not found: " +:+ u)) (promises s)) s),
   Val tt).
Proof.
  intros Hzero Hd. unfold _done. msimpl.
  destruct (countWarningsByType_lookup (warnings s)) as (m & -> & Hm).
  msimpl. rewrite Hm, Hzero. msimpl. rewrite bool_decide_eq_false_2 by lia.
  rewrite Hd. msimpl. unfold live_deferred, dhas. rewrite Hd. msimpl.
  rewrite decide_True by reflexivity.
  unfold rejectDeferredFile. msimpl. rewrite Hd. msimpl.
  rewrite decide_True by reflexivity. msimpl.
  rewrite Hd, ddelete_head. reflexivity.
Qed.

Lemma _done_nothing_deferred s :
  count_severity ERROR (warnings s) = 0 →
  deferredFiles s = [] →
  _done s =
  (match analyzeDependencies s with
   | None => set_analyzeDependencies (Some (_dependencyAnalysis s))
               (set_dependenciesStreamEnded true s)
   | Some _ => set_dependenciesStreamEnded true s
   end, Val tt).
Proof.
  intros Hzero Hd. unfold _done. msimpl.
  destruct (countWarningsByType_lookup (warnings s)) as (m & -> & Hm).
  msimpl. rewrite Hm, Hzero. msimpl. rewrite bool_decide_eq_false_2 by lia.
  rewrite Hd. msimpl. destruct (analyzeDependencies s); reflexivity.
Qed.

(** ** Frames: what a method leaves alone *)

Section Preserves.
Context {B : Type} (proj : State → B).

Lemma preserves_ret {A} (a : A) : preserves proj (ret a).
Proof. intros s. reflexivity. Qed.

Lemma preserves_throw {A} (e : Error) : preserves proj (@throw A e).
Proof. intros s. reflexivity. Qed.

Lemma preserves_get : preserves proj get.
Proof. intros s. reflexivity. Qed.

Lemma preserves_modify (f : State → State) :
  (∀ s, proj (f s) = proj s) → preserves proj (modify f).
Proof. intros Hf s. apply Hf. Qed.

Lemma preserves_bind {A C} (c : M A) (k : A → M C) :
  preserves proj c → (∀ a, preserves proj (k a)) → preserves proj (bind c k).
Proof.
  intros Hc Hk s. unfold bind. specialize (Hc s).
  destruct (c s) as [s' [a|e]]; cbn in *; [|exact Hc].
  rewrite Hk. exact Hc.
Qed.

Lemma preserves_try_catch {A} (c : M A) (h : Error → M A) :
  preserves proj c → (∀ e, preserves proj (h e)) → preserves proj (try_catch c h).
Proof.
  intros Hc Hh s. unfold try_catch. specialize (Hc s).
  destruct (c s) as [s' [a|e]]; cbn in *; [exact Hc|].
  rewrite Hh. exact Hc.
Qed.

Lemma preserves_lift_result {A} (r : Result A) : preserves proj (lift_result r).
Proof. destruct r; intros s; reflexivity. Qed.

Lemma preserves_for_keys live body ks :
  (∀ k, preserves proj (body k)) → preserves proj (for_keys live body ks).
Proof.
  intros Hbody. induction ks as [|k ks IH]; cbn [for_keys].
  - apply preserves_ret.
  - apply preserves_bind; [apply preserves_get|]. intros s.
    destruct (live k s); [|exact IH].
    apply preserves_bind; [apply Hbody|]. intros [|]; [apply preserves_ret|exact IH].
Qed.
End Preserves.

Ltac preserves_step :=
  first
    [ apply preserves_ret
    | apply preserves_throw
    | apply preserves_get
    | apply preserves_lift_result
    | apply preserves_modify; intros ?; reflexivity
    | apply preserves_bind; [|intros ?]
    | apply preserves_try_catch; [|intros ?]
    | apply preserves_for_keys; intros ?
    | match goal with
      | |- preserves _ (match ?x with _ => _ end) => destruct x
      end ].

Ltac solve_preserves := repeat preserves_step.

Lemma _done_preserves_fragments : preserves allFragmentsToAnalyze _done.
Proof.
  unfold _done, emitAnalysisError, rejectDeferredFile. solve_preserves.
  intros s1. unfold modify. cbn. destruct (analyzeDependencies s1); reflexivity.
Qed.

Lemma _done_preserves_warnings : preserves warnings _done.
Proof.
  unfold _done, emitAnalysisError, rejectDeferredFile. solve_preserves.
  intros s1. unfold modify. cbn. destruct (analyzeDependencies s1); reflexivity.
Qed.

Lemma _done_preserves_index : preserves _dependencyAnalysis _done.
Proof.
  unfold _done, emitAnalysisError, rejectDeferredFile. solve_preserves.
  intros s1. unfold modify. cbn. destruct (analyzeDependencies s1); reflexivity.
Qed.

Lemma _done_preserves_sourceFilesLoaded : preserves sourceFilesLoaded _done.
Proof.
  unfold _done, emitAnalysisError, rejectDeferredFile. solve_preserves.
  intros s1. unfold modify. cbn. destruct (analyzeDependencies s1); reflexivity.
Qed.

Lemma _done_returns s : (_done s).2 = Val tt.
Proof.
  destruct (decide (count_severity ERROR (warnings s) = 0)) as [Hzero|Hpos].
  - destruct (deferredFiles s) as [|[u p] rest] eqn:Hd.
    + rewrite _done_nothing_deferred by assumption. reflexivity.
    + erewrite _done_first_deferred by eassumption. reflexivity.
  - rewrite _done_errors by lia. reflexivity.
Qed.

(** ** [analyzeFile] *)

Section AnalyzeFile.
Context (env : Env) (file : File) (url : ResolvedUrl).
Hypothesis Hfragment : isFragment env (path file) = true.
Hypothesis Hurl : resolvePath env (path file) = Val url.

Lemma analyzeFile_failed msg s :
  ∃ e, analyzeFile env file (AnalysisFailed msg) s = (s, Exn e).
Proof.
  unfold analyzeFile. rewrite Hfragment, Hurl. msimpl. eexists. reflexivity.
Qed.

Lemma analyzeFile_stray ws features s :
  url ∉ allFragmentsToAnalyze s →
  analyzeFile env file (AnalysisOk ws features) s =
  (set_warnings (analyzed_warnings env ws s) s,
   Exn ("Dependency analysis incorrectly called for " +:+ url)).
Proof.
  intros Hnot. unfold analyzeFile. rewrite Hfragment, Hurl. msimpl.
  rewrite _addDependencies_not_pending by exact Hnot. reflexivity.
Qed.

Lemma analyzeFile_pending ws features s :
  url ∈ allFragmentsToAnalyze s →
  analyzeFile env file (AnalysisOk ws features) s =
  if bool_decide (size (allFragmentsToAnalyze s ∖ {[url]}) = 0)
  then _done (analyzed env url ws features s)
  else (analyzed env url ws features s, Val tt).
Proof.
  intros Hin. unfold analyzeFile. rewrite Hfragment, Hurl. msimpl.
  rewrite _addDependencies_pending by exact Hin. msimpl.
  case_bool_decide; reflexivity.
Qed.

Lemma analyzeFile_pending_returns ws features s :
  url ∈ allFragmentsToAnalyze s →
  ∃ s', analyzeFile env file (AnalysisOk ws features) s = (s', Val tt) ∧
        _dependencyAnalysis s' = _dependencyAnalysis (analyzed env url ws features s) ∧
        allFragmentsToAnalyze s' = allFragmentsToAnalyze s ∖ {[url]} ∧
        warnings s' = analyzed_warnings env ws s.
Proof.
  intros Hin. rewrite analyzeFile_pending by exact Hin.
  case_bool_decide; [|eexists; repeat split].
  pose proof (_done_returns (analyzed env url ws features s)) as Hret.
  pose proof (_done_preserves_index (analyzed env url ws features s)) as Hidx.
  pose proof (_done_preserves_fragments (analyzed env url ws features s)) as Hfr.
  pose proof (_done_preserves_warnings (analyzed env url ws features s)) as Hw.
  destruct (_done (analyzed env url ws features s)) as [s' r]. cbn in *. subst r.
  exists s'. repeat split; assumption.
Qed.

(** C8: an index update for a fragment that is not pending fails with
    the error of [_addDependencies] and leaves the index and the pending
    set as they were; the update for a pending fragment succeeds, records
    its imports and takes it out of the pending set. *)
Theorem C8_index_update_needs_pending_fragment (s : State) :
  (url ∉ allFragmentsToAnalyze s →
     (∀ deps, _addDependencies url deps s =
              (s, Exn ("Dependency analysis incorrectly called for " +:+ url))) ∧
     (∀ res, ∃ s' e, analyzeFile env file res s = (s', Exn e) ∧
                     _dependencyAnalysis s' = _dependencyAnalysis s ∧
                     allFragmentsToAnalyze s' = allFragmentsToAnalyze s)) ∧
  (url ∈ allFragmentsToAnalyze s →
     ∀ ws features,
       ∃ s', analyzeFile env file (AnalysisOk ws features) s = (s', Val tt) ∧
             fragmentToDeps (_dependencyAnalysis s') !! url
               = Some (imports (document_deps env features)) ∧
             allFragmentsToAnalyze s' = allFragmentsToAnalyze s ∖ {[url]} ∧
             url ∉ allFragmentsToAnalyze s').
Proof.
  split.
  - intros Hnot. split.
    + intros deps. apply _addDependencies_not_pending, Hnot.
    + intros [msg|ws features].
      * destruct (analyzeFile_failed msg s) as [e He]. exists s, e. by rewrite He.
      * rewrite analyzeFile_stray by exact Hnot. eexists _, _. repeat split.
  - intros Hin ws features.
    destruct (analyzeFile_pending_returns ws features s Hin)
      as (s' & Hrun & Hidx & Hfr & _).
    exists s'. repeat split; [exact Hrun | | exact Hfr |].
    + rewrite Hidx. cbn. apply lookup_insert_eq.
    + rewrite Hfr. intros [_ Hn]%elem_of_difference. apply Hn. by apply elem_of_singleton.
Qed.
End AnalyzeFile.

(** ** The completion gate *)

Ltac solve_preserves_zeta :=
  repeat first [ preserves_step | progress (cbv beta zeta) ].

Lemma load_preserves_gate env url : preserves gate (load env url).
Proof.
  unfold load, sourceUrlAnalyzed, dependencyUrlAnalyzed, rejectDeferredFile.
  solve_preserves_zeta.
Qed.

Lemma addFile_preserves_gate env file : preserves gate (addFile env file).
Proof. unfold addFile. solve_preserves_zeta. Qed.

Lemma resolveFile_preserves_gate env file : preserves gate (resolveFile env file).
Proof.
  unfold resolveFile, addFile, hasDeferredFile, resolveDeferredFile.
  solve_preserves_zeta.
Qed.

Lemma onSourcesStreamComplete_preserves_gate env :
  preserves gate (onSourcesStreamComplete env).
Proof.
  unfold onSourcesStreamComplete, rejectDeferredFile. solve_preserves_zeta.
Qed.

Lemma analyzeFile_gate_closed env file res s :
  allFragmentsToAnalyze s = ∅ → gate (analyzeFile env file res s).1 = gate s.
Proof.
  intros Hempty. unfold analyzeFile.
  destruct (isFragment env (path file)); [|reflexivity].
  destruct (resolvePath env (path file)) as [url|e]; [|reflexivity].
  destruct res as [msg|ws features]; [reflexivity|]. msimpl.
  rewrite _addDependencies_not_pending; [reflexivity|].
  cbn. rewrite Hempty. set_solver.
Qed.

Lemma step_gate_closed env s op :
  allFragmentsToAnalyze s = ∅ → gate (step env s op) = gate s.
Proof.
  intros Hempty. unfold step. destruct op as [file|file res| |url|file]; cbn [run_op].
  - apply resolveFile_preserves_gate.
  - apply analyzeFile_gate_closed, Hempty.
  - apply onSourcesStreamComplete_preserves_gate.
  - apply preserves_bind; [apply load_preserves_gate|]. intros ?. apply preserves_ret.
  - apply addFile_preserves_gate.
Qed.

Lemma run_gate_closed env ops : ∀ s,
  allFragmentsToAnalyze s = ∅ → gate (run env s ops) = gate s.
Proof.
  induction ops as [|op ops IH]; intros s Hempty; [reflexivity|].
  cbn [run foldl]. fold (run env (step env s op) ops).
  pose proof (step_gate_closed env s op Hempty) as Hstep.
  rewrite IH; [exact Hstep|].
  apply (f_equal fst) in Hstep. cbn in Hstep. congruence.
Qed.

Lemma analyzeFile_gate_invariant env file res s :
  gate_invariant s → gate_invariant (analyzeFile env file res s).1.
Proof.
  intros Hinv.
  destruct (decide (allFragmentsToAnalyze s = ∅)) as [Hempty|Hpending].
  { pose proof (analyzeFile_gate_closed env file res s Hempty) as Hg.
    unfold gate in Hg. injection Hg as Hfr Hres. intros _. congruence. }
  assert (Hunresolved : analyzeDependencies s = None).
  { destruct (analyzeDependencies s) eqn:Hres; [|reflexivity].
    contradiction Hpending. apply Hinv. rewrite Hres. discriminate. }
  destruct (isFragment env (path file)) eqn:Hfragment; cycle 1.
  { unfold analyzeFile. rewrite Hfragment. exact Hinv. }
  destruct (resolvePath env (path file)) as [url|e] eqn:Hurl; cycle 1.
  { unfold analyzeFile. rewrite Hfragment, Hurl. exact Hinv. }
  destruct res as [msg|ws features].
  { destruct (analyzeFile_failed env file url Hfragment Hurl msg s) as [e ->].
    exact Hinv. }
  destruct (decide (url ∈ allFragmentsToAnalyze s)) as [Hin|Hnot].
  - rewrite (analyzeFile_pending env file url Hfragment Hurl) by exact Hin.
    case_bool_decide as Hsize.
    + intros _. rewrite _done_preserves_fragments. cbn.
      apply leibniz_equiv, size_empty_iff, Hsize.
    + intros Hres. cbn in Hres. contradiction.
  - rewrite (analyzeFile_stray env file url Hfragment Hurl) by exact Hnot.
    intros Hres. cbn in Hres. contradiction.
Qed.

Lemma step_gate_invariant env s op : gate_invariant s → gate_invariant (step env s op).
Proof.
  intros Hinv. unfold step.
  assert (Hframe : gate (run_op env op s).1 = gate s → gate_invariant (run_op env op s).1).
  { intros Hg. unfold gate in Hg. injection Hg as Hfr Hres.
    unfold gate_invariant. rewrite Hfr, Hres. exact Hinv. }
  destruct op as [file|file res| |url|file]; cbn [run_op].
  - apply Hframe, resolveFile_preserves_gate.
  - apply analyzeFile_gate_invariant, Hinv.
  - apply Hframe, onSourcesStreamComplete_preserves_gate.
  - apply Hframe. apply preserves_bind; [apply load_preserves_gate|].
    intros ?. apply preserves_ret.
  - apply Hframe, addFile_preserves_gate.
Qed.

Lemma run_gate_invariant env ops : ∀ s, gate_invariant s → gate_invariant (run env s ops).
Proof.
  induction ops as [|op ops IH]; intros s Hinv; [exact Hinv|].
  cbn [run foldl]. apply IH, step_gate_invariant, Hinv.
Qed.

Lemma reachable_unresolved env fragments history :
  allFragmentsToAnalyze (run env (initial fragments) history) ≠ ∅ →
  analyzeDependencies (run env (initial fragments) history) = None.
Proof.
  intros Hpending.
  pose proof (run_gate_invariant env history (initial fragments)) as Hinv.
  destruct (analyzeDependencies (run env (initial fragments) history)) eqn:Hres;
    [|reflexivity].
  contradiction Hpending. apply Hinv.
  - intros Hn. contradiction Hn. reflexivity.
  - rewrite Hres. discriminate.
Qed.

(** C5: in a run of the analyzer, when the analysis of a fragment empties
    the set of fragments to analyze and the warnings then hold [n > 0] of
    severity ERROR, the call returns after emitting one and the same
    error, which carries [n], on the sources stream and on the
    dependencies stream, and whatever happens afterwards
    [analyzeDependencies] is not resolved. *)
Theorem C5_error_warnings_fail_both_streams
    (env : Env) (fragments : gset string) (history : list Op)
    (file : File) (res : AnalysisResult) (s' : State) (r : Result unit) :
  let s := run env (initial fragments) history in
  allFragmentsToAnalyze s ≠ ∅ →
  analyzeFile env file res s = (s', r) →
  allFragmentsToAnalyze s' = ∅ →
  0 < count_severity ERROR (warnings s') →
  r = Val tt ∧
  _sourcesProcessingStream s' =
    _sourcesProcessingStream s ++ [severityError (count_severity ERROR (warnings s'))] ∧
  _dependenciesProcessingStream s' =
    _dependenciesProcessingStream s ++ [severityError (count_severity ERROR (warnings s'))] ∧
  ∀ ops, analyzeDependencies (run env s' ops) = None.
Proof.
  intros s Hpending Hrun Hempty Herrors.
  pose proof (reachable_unresolved env fragments history Hpending) as Hunresolved.
  fold s in Hunresolved.
  assert (Hnone : analyzeDependencies s' = None →
                  ∀ ops, analyzeDependencies (run env s' ops) = None).
  { intros Hn ops. pose proof (run_gate_closed env ops s' Hempty) as Hg.
    apply (f_equal snd) in Hg. cbn in Hg. congruence. }
  destruct (isFragment env (path file)) eqn:Hfragment; cycle 1.
  { unfold analyzeFile in Hrun. rewrite Hfragment in Hrun.
    unfold ret in Hrun. congruence. }
  destruct (resolvePath env (path file)) as [url|e] eqn:Hurl; cycle 1.
  { unfold analyzeFile in Hrun. rewrite Hfragment, Hurl in Hrun.
    unfold bind, lift_result, throw in Hrun. congruence. }
  destruct res as [msg|ws features].
  { destruct (analyzeFile_failed env file url Hfragment Hurl msg s) as [e He].
    congruence. }
  destruct (decide (url ∈ allFragmentsToAnalyze s)) as [Hin|Hnot].
  - rewrite (analyzeFile_pending env file url Hfragment Hurl) in Hrun by exact Hin.
    case_bool_decide as Hsize; [|injection Hrun as <- <-; cbn in Hempty].
    + set (s3 := analyzed env url ws features s) in *.
      pose proof (_done_preserves_warnings s3) as Hw.
      rewrite Hrun in Hw. cbn [fst] in Hw. rewrite Hw in Herrors |- *.
      rewrite _done_errors in Hrun by exact Herrors.
      injection Hrun as <- <-. cbn. auto.
    + rewrite Hempty in Hsize. contradiction Hsize. apply size_empty.
  - rewrite (analyzeFile_stray env file url Hfragment Hurl) in Hrun by exact Hnot.
    injection Hrun as <- <-. cbn in Hempty. contradiction.
Qed.

(** ** The table of deferred loads *)

Lemma dget_dset_eq k p d : dget k (dset k p d) = Some p.
Proof.
  induction d as [|[k' p'] d IH]; unfold dset; fold dset; cbn.
  - by rewrite decide_True.
  - destruct (decide (k' = k)) as [->|Hne]; cbn.
    + by rewrite decide_True.
    + by rewrite decide_False.
Qed.

Lemma dget_ddelete_eq k d : dget k (ddelete k d) = None.
Proof.
  unfold ddelete. induction d as [|[k' p'] d IH]; [reflexivity|].
  rewrite filter_cons. cbn. destruct (decide (k' ≠ k)) as [Hne|Heq]; [|exact IH].
  cbn. by rewrite decide_False.
Qed.

Lemma dget_ddelete_ne k k' d : k ≠ k' → dget k' (ddelete k d) = dget k' d.
Proof.
  intros Hne. unfold ddelete. induction d as [|[k0 p0] d IH]; [reflexivity|].
  rewrite filter_cons. cbn. destruct (decide (k0 ≠ k)) as [Hne0|Heq]; cbn.
  - by rewrite IH.
  - apply dec_stable in Heq. subst k0. by rewrite decide_False.
Qed.

Lemma dset_keys_fresh k p d : dget k d = None → (dset k p d).*1 = d.*1 ++ [k].
Proof.
  induction d as [|[k' p'] d IH]; unfold dset; fold dset; cbn; [done|].
  destruct (decide (k' = k)); [done|]. intros H. cbn. by rewrite IH.
Qed.

Lemma dset_keys_present k p d : is_Some (dget k d) → (dset k p d).*1 = d.*1.
Proof.
  induction d as [|[k' p'] d IH]; unfold dset; fold dset; cbn.
  - by intros [? ?].
  - destruct (decide (k' = k)) as [->|Hne]; [done|]. intros H. cbn. by rewrite IH.
Qed.

Lemma dget_None_keys k d : dget k d = None → k ∉ d.*1.
Proof.
  induction d as [|[k' p'] d IH]; cbn; [set_solver|].
  destruct (decide (k' = k)); [done|]. intros H. apply not_elem_of_cons. auto.
Qed.

(** [Map.set] and [Map.delete] keep the keys of the table distinct. *)
Lemma dset_NoDup k p d : NoDup d.*1 → NoDup (dset k p d).*1.
Proof.
  intros Hnd. destruct (dget k d) as [p0|] eqn:Hget.
  - rewrite dset_keys_present by eauto. exact Hnd.
  - rewrite dset_keys_fresh by exact Hget.
    apply NoDup_app. repeat split; [exact Hnd | | apply NoDup_singleton].
    intros x Hx Hk. apply list_elem_of_singleton in Hk. subst x.
    by apply dget_None_keys in Hget.
Qed.

Lemma ddelete_NoDup k d : NoDup d.*1 → NoDup (ddelete k d).*1.
Proof.
  unfold ddelete. induction d as [|[k' p'] d IH]; [done|].
  rewrite filter_cons. cbn. intros Hnd. apply NoDup_cons in Hnd as [Hk Hnd].
  destruct (decide (k' ≠ k)); [|by apply IH].
  cbn. apply NoDup_cons. split; [|by apply IH].
  intros Hin. apply Hk. apply list_elem_of_fmap in Hin as ([k0 p0] & -> & Hin).
  apply list_elem_of_fmap. exists (k0, p0). split; [done|].
  by apply list_elem_of_filter in Hin as [_ Hin].
Qed.

(** ** Promises *)

Lemma settle_fresh ps st : settle (length ps) st (ps ++ [Pending]) = ps ++ [st].
Proof.
  unfold settle. rewrite lookup_app_r by lia. rewrite Nat.sub_diag. cbn.
  rewrite insert_app_r_alt by lia. rewrite Nat.sub_diag. reflexivity.
Qed.

Lemma settle_lookup_ne p q st ps : p ≠ q → settle p st ps !! q = ps !! q.
Proof.
  intros Hne. unfold settle. destruct (ps !! p) as [[]|]; try reflexivity.
  by apply list_lookup_insert_ne.
Qed.

(** ** [load] *)

Section Load.
Context (env : Env) (url : ResolvedUrl) (s : State).
Hypothesis HcanLoad : canLoad env url = true.
Hypothesis Hmissing : files s !! url = None.

Lemma load_dependency :
  isSource env (pathFromResolvedUrl env url) = false →
  load env url s =
  (set_dependenciesStream (_dependenciesStream s ++ [pathFromResolvedUrl env url])
     (registered url s), Val (length (promises s))).
Proof.
  intros Hdep. unfold load, dependencyUrlAnalyzed. msimpl.
  rewrite HcanLoad, Hmissing, Hdep. msimpl. rewrite Hmissing. reflexivity.
Qed.

Lemma load_source_awaited :
  isSource env (pathFromResolvedUrl env url) = true →
  sourceFilesLoaded s = false →
  load env url s = (registered url s, Val (length (promises s))).
Proof.
  intros Hsrc Hloaded. unfold load, sourceUrlAnalyzed. msimpl.
  rewrite HcanLoad, Hmissing, Hsrc. msimpl. rewrite Hloaded. reflexivity.
Qed.

Lemma load_source_too_late :
  isSource env (pathFromResolvedUrl env url) = true →
  sourceFilesLoaded s = true →
  load env url s =
  (set_deferredFiles (ddelete url (dset url (length (promises s)) (deferredFiles s)))
     (set_promises
        (promises s ++ [Rejected ("Not found: " +:+ dquote +:+ url +:+ dquote)]) s),
   Val (length (promises s))).
Proof.
  intros Hsrc Hloaded. unfold load, sourceUrlAnalyzed. msimpl.
  rewrite HcanLoad, Hmissing, Hsrc. msimpl. rewrite Hloaded. msimpl.
  erewrite rejectDeferredFile_registered by (cbn; apply dget_dset_eq).
  cbn. rewrite settle_fresh. reflexivity.
Qed.
End Load.

(** C2, as the code behaves: [load] has no check for a url that is
    already deferred.  A second request for a url that is not in [files]
    and whose first promise [p0] is registered returns a new promise; the
    promise [p0] stays as it was and its callbacks are no longer in the
    table, whose keys stay distinct; unless the url is a source asked for
    after the sources stream ended, the callbacks of the new promise take
    the place of those of [p0]. *)
Theorem C2_second_request_replaces_callbacks
    (env : Env) (url : ResolvedUrl) (s : State) (p0 : nat) :
  canLoad env url = true →
  files s !! url = None →
  dget url (deferredFiles s) = Some p0 →
  p0 < length (promises s) →
  NoDup (deferredFiles s).*1 →
  ∃ s', load env url s = (s', Val (length (promises s))) ∧
        promises s' !! p0 = promises s !! p0 ∧
        dget url (deferredFiles s') ≠ Some p0 ∧
        NoDup (deferredFiles s').*1 ∧
        (¬ (isSource env (pathFromResolvedUrl env url) = true ∧
            sourceFilesLoaded s = true) →
         dget url (deferredFiles s') = Some (length (promises s)) ∧
         promises s' !! length (promises s) = Some Pending).
Proof.
  intros HcanLoad Hmissing Hfirst Hp0 Hnodup.
  assert (Hnew : ∀ st, (promises s ++ [st]) !! length (promises s) = Some st).
  { intros st. rewrite lookup_app_r by lia. by rewrite Nat.sub_diag. }
  assert (Hold : ∀ st, (promises s ++ [st]) !! p0 = promises s !! p0).
  { intros st. by rewrite lookup_app_l. }
  destruct (isSource env (pathFromResolvedUrl env url)) eqn:Hsrc;
    [destruct (sourceFilesLoaded s) eqn:Hloaded|].
  - rewrite load_source_too_late by assumption. eexists. split; [reflexivity|].
    cbn. rewrite dget_ddelete_eq. split_and!.
    + apply Hold.
    + discriminate.
    + by apply ddelete_NoDup, dset_NoDup.
    + intros Hnot. contradiction Hnot. by split.
  - rewrite load_source_awaited by assumption. eexists. split; [reflexivity|].
    cbn. rewrite dget_dset_eq. split_and!.
    + apply Hold.
    + intros [= Heq]. lia.
    + by apply dset_NoDup.
    + intros _. split; [reflexivity | apply Hnew].
  - rewrite load_dependency by assumption. eexists. split; [reflexivity|].
    cbn. rewrite dget_dset_eq. split_and!.
    + apply Hold.
    + intros [= Heq]. lia.
    + by apply dset_NoDup.
    + intros _. split; [reflexivity | apply Hnew].
Qed.

(** C7, as the code behaves: the test of [dependencyUrlAnalyzed] looks
    at [files], which [load] has just found not to hold the url, so a
    second request made while the first is pending pushes the path into
    the dependencies stream a second time. *)
Theorem C7_second_request_pushes_again (env : Env) (url : ResolvedUrl) (s : State) :
  canLoad env url = true →
  files s !! url = None →
  isSource env (pathFromResolvedUrl env url) = false →
  _dependenciesStream (run env s [OpLoad url; OpLoad url]) =
  _dependenciesStream s ++ [pathFromResolvedUrl env url; pathFromResolvedUrl env url].
Proof.
  intros HcanLoad Hmissing Hdep. cbn [run foldl]. unfold step at 2. cbn [run_op].
  unfold bind at 1. rewrite load_dependency by assumption. cbn [ret fst].
  unfold step. cbn [run_op]. unfold bind at 1.
  rewrite load_dependency by assumption. cbn.
  by rewrite <- app_assoc.
Qed.

(** C4, as the code behaves: the loop of [_done] over the deferred urls
    returns in its first turn.  With no warning of severity ERROR and two
    or more deferred urls, the second url stays deferred and its promise
    stays pending; [analyzeDependencies] is left as it was. *)
Theorem C4_done_rejects_first_deferred_only
    (s : State) (u u' : ResolvedUrl) (p p' : nat) (rest : list (ResolvedUrl * nat)) :
  count_severity ERROR (warnings s) = 0 →
  deferredFiles s = (u, p) :: (u', p') :: rest →
  u ≠ u' → p ≠ p' →
  promises s !! p' = Some Pending →
  ∃ s', _done s = (s', Val tt) ∧
        promises s' = settle p (Rejected ("Not found: " +:+ u)) (promises s) ∧
        dget u' (deferredFiles s') = Some p' ∧
        promises s' !! p' = Some Pending ∧
        analyzeDependencies s' = analyzeDependencies s.
Proof.
  intros Hzero Hd Hu Hp Hpending.
  erewrite _done_first_deferred by eassumption. eexists. split; [reflexivity|].
  cbn. rewrite dget_ddelete_ne by exact Hu. cbn. rewrite decide_True by reflexivity.
  split_and!; try reflexivity. by rewrite settle_lookup_ne.
Qed.

(** ** The end of the sources stream *)

(** A loop over the deferred urls whose body only fails on a url that is
    not deferred never throws. *)
Lemma for_keys_returns body ks :
  (∀ k s, live_deferred k s = true → ∃ b, (body k s).2 = Val b) →
  ∀ s, ∃ b, (for_keys live_deferred body ks s).2 = Val b.
Proof.
  intros Hbody. induction ks as [|k ks IH]; intros s; cbn [for_keys].
  - exists false. reflexivity.
  - unfold bind at 1. unfold get at 1.
    destruct (live_deferred k s) eqn:Hlive; [|apply IH].
    unfold bind at 1. destruct (Hbody k s Hlive) as [b Hb].
    destruct (body k s) as [s1 r]. cbn in Hb. subst r.
    destruct b; [by exists true | apply IH].
Qed.

Lemma rejectDeferredFile_live url err s :
  live_deferred url s = true → (rejectDeferredFile url err s).2 = Val tt.
Proof.
  unfold live_deferred. intros Hlive. apply dhas_dget in Hlive as [p Hp].
  by erewrite rejectDeferredFile_registered.
Qed.

Lemma onSourcesStreamComplete_sets_flag env s :
  sourceFilesLoaded (step env s OpSourcesStreamComplete) = true.
Proof.
  unfold step. cbn [run_op]. unfold onSourcesStreamComplete.
  unfold bind at 1. unfold get at 1. unfold bind at 1.
  match goal with
  | |- context [for_keys live_deferred ?body ?ks s] =>
      destruct (for_keys_returns body ks) with (s := s) as [b Hb]
  end.
  - intros k s0 Hlive. destruct (isSource env (pathFromResolvedUrl env k)).
    + unfold bind. pose proof (rejectDeferredFile_live k ("Not found: " +:+ k) s0 Hlive) as Hr.
      destruct (rejectDeferredFile k ("Not found: " +:+ k) s0) as [s1 r].
      cbn in Hr. subst r. by exists false.
    + by exists false.
  - match goal with
    | |- context [for_keys live_deferred ?body ?ks s] =>
        destruct (for_keys live_deferred body ks s) as [s1 r]
    end.
    cbn in Hb. subst r. reflexivity.
Qed.

Lemma run_op_preserves_sourceFilesLoaded env op :
  op ≠ OpSourcesStreamComplete → preserves sourceFilesLoaded (run_op env op).
Proof.
  intros Hop. destruct op as [file|file res| |url|file]; [| | done | |]; cbn [run_op].
  - unfold resolveFile, addFile, hasDeferredFile, resolveDeferredFile.
    solve_preserves_zeta.
  - unfold analyzeFile, _getDependencies, _addDependencies.
    solve_preserves_zeta.
    intros s1. unfold modify. cbn. destruct (analyzeDependencies s1); reflexivity.
  - unfold load, sourceUrlAnalyzed, dependencyUrlAnalyzed, rejectDeferredFile.
    solve_preserves_zeta.
  - unfold addFile. solve_preserves_zeta.
Qed.

Lemma step_keeps_sourceFilesLoaded env s op :
  sourceFilesLoaded s = true → sourceFilesLoaded (step env s op) = true.
Proof.
  intros Hloaded. destruct (decide (op = OpSourcesStreamComplete)) as [->|Hop].
  - apply onSourcesStreamComplete_sets_flag.
  - unfold step. by rewrite run_op_preserves_sourceFilesLoaded.
Qed.

Lemma run_keeps_sourceFilesLoaded env ops : ∀ s,
  sourceFilesLoaded s = true → sourceFilesLoaded (run env s ops) = true.
Proof.
  induction ops as [|op ops IH]; intros s Hloaded; [exact Hloaded|].
  cbn [run foldl]. apply IH, step_keeps_sourceFilesLoaded, Hloaded.
Qed.

(** C6: once the sources stream has ended, whatever happened since, a
    request for a url that is a source and is not in [files] gives a
    promise that is rejected at once with the error [Not found] naming
    the url, and leaves no entry for the url in the table of deferred
    loads. *)
Theorem C6_source_requested_after_sources_ended
    (env : Env) (s0 : State) (ops : list Op) (url : ResolvedUrl) :
  let s := run env (step env s0 OpSourcesStreamComplete) ops in
  canLoad env url = true →
  isSource env (pathFromResolvedUrl env url) = true →
  files s !! url = None →
  ∃ s' p, load env url s = (s', Val p) ∧
          promises s' !! p = Some (Rejected ("Not found: " +:+ dquote +:+ url +:+ dquote)) ∧
          dget url (deferredFiles s') = None ∧
          (∀ q, q < length (promises s) → promises s' !! q = promises s !! q).
Proof.
  intros s HcanLoad Hsrc Hmissing.
  assert (Hloaded : sourceFilesLoaded s = true).
  { apply run_keeps_sourceFilesLoaded, onSourcesStreamComplete_sets_flag. }
  rewrite load_source_too_late by assumption.
  eexists _, _. split; [reflexivity|]. cbn. split_and!.
  - rewrite lookup_app_r by lia. by rewrite Nat.sub_diag.
  - apply dget_ddelete_eq.
  - intros q Hq. by rewrite lookup_app_l.
Qed.

(** ** The file store *)

(** C3, as the code behaves: [files] is a map, each url has one entry at
    most; [resolveFile] returns and stores the file that arrives under its
    url whatever [files] held for that url before, and the other urls keep
    their file. *)
Theorem C3_second_arrival_replaces_file
    (env : Env) (file : File) (url : ResolvedUrl) (s : State) :
  resolvePath env (path file) = Val url →
  resolvePath env (pathNormalize env (path file)) = Val url →
  ∃ s', resolveFile env file s = (s', Val tt) ∧
        files s' = <[url := file]> (files s) ∧
        files s' !! url = Some file ∧
        (∀ u, u ≠ url → files s' !! u = files s !! u) ∧
        NoDup (map_to_list (files s')).*1.
Proof.
  intros Hurl Hnorm. unfold resolveFile, addFile, hasDeferredFile. msimpl.
  rewrite Hurl. msimpl. rewrite Hnorm. msimpl.
  unfold resolveDeferredFile. msimpl.
  destruct (dhas url (deferredFiles s)) eqn:Hhas.
  - apply dhas_dget in Hhas as [p Hp]. msimpl. rewrite Hp. msimpl.
    eexists. split; [reflexivity|]. cbn. split_and!.
    + done.
    + apply lookup_insert_eq.
    + intros u Hu. by apply lookup_insert_ne.
    + apply NoDup_fst_map_to_list.
  - msimpl. eexists. split; [reflexivity|]. cbn. split_and!.
    + done.
    + apply lookup_insert_eq.
    + intros u Hu. by apply lookup_insert_ne.
    + apply NoDup_fst_map_to_list.
Qed.

(** ** The canonical resolver *)

Arguments is_separator : simpl never.
Arguments hex_digit : simpl never.

Lemma string_app_nil (s : string) : EmptyString +:+ s = s.
Proof. reflexivity. Qed.

Lemma string_app_cons (c : ascii) (a b : string) :
  String c a +:+ b = String c (a +:+ b).
Proof. reflexivity. Qed.

Lemma string_app_assoc (a b c : string) : (a +:+ b) +:+ c = a +:+ (b +:+ c).
Proof.
  induction a as [|x a IH]; [reflexivity|]. exact (f_equal (String x) IH).
Qed.

Lemma encode_char_decode (c : ascii) (r : string) :
  percent_decode (encode_char c +:+ r) = String c (percent_decode r).
Proof.
  destruct c as [b0 b1 b2 b3 b4 b5 b6 b7].
  destruct b0, b1, b2, b3, b4, b5, b6, b7; reflexivity.
Qed.

Lemma percent_decode_encode_app (s t : string) :
  percent_decode (percent_encode s +:+ t) = s +:+ percent_decode t.
Proof.
  induction s as [|c s IH]; cbn [percent_encode]; [reflexivity|].
  rewrite string_app_assoc, encode_char_decode, IH. reflexivity.
Qed.

Lemma segments_of_nonempty p : segments_of p ≠ [].
Proof.
  destruct p as [|c p]; cbn; [done|].
  destruct (is_separator c); [done|]. by destruct (segments_of p).
Qed.

Lemma segments_of_no_separator p : Forall (λ seg, no_separator seg = true) (segments_of p).
Proof.
  induction p as [|c p IH]; cbn.
  - by repeat constructor.
  - destruct (is_separator c) eqn:Hc; [by constructor|].
    destruct (segments_of p) as [|seg segs]; [by repeat constructor; cbn; rewrite Hc|].
    apply Forall_cons in IH as [Hseg Hsegs]. constructor; [|exact Hsegs].
    cbn. by rewrite Hc, Hseg.
Qed.

Lemma segments_of_segment seg : no_separator seg = true → segments_of seg = [seg].
Proof.
  induction seg as [|c seg IH]; cbn; [done|].
  intros [Hc Hseg]%andb_true_iff. apply negb_true_iff in Hc. rewrite Hc.
  by rewrite IH.
Qed.

Lemma segments_of_app a sep b :
  is_separator sep = true →
  segments_of (a +:+ String sep b) = segments_of a ++ segments_of b.
Proof.
  intros Hsep. induction a as [|c a IH].
  - rewrite string_app_nil. cbn. by rewrite Hsep.
  - rewrite string_app_cons. cbn. destruct (is_separator c); [by rewrite IH|].
    rewrite IH. pose proof (segments_of_nonempty a). by destruct (segments_of a).
Qed.

Lemma normalize_step_clean stack seg :
  clean seg → normalize_step stack seg = stack ++ [seg].
Proof.
  intros (H1 & H2 & H3 & _). unfold normalize_step.
  by rewrite !decide_False.
Qed.

Lemma Forall_removelast {A} (P : A → Prop) (l : list A) :
  Forall P l → Forall P (removelast l).
Proof.
  induction l as [|x [|y l] IH]; cbn; intros H; [done|done|].
  apply Forall_cons in H as [Hx H]. constructor; [exact Hx|]. by apply IH.
Qed.

Lemma normalize_step_keeps_clean stack seg :
  Forall clean stack → no_separator seg = true →
  Forall clean (normalize_step stack seg).
Proof.
  intros Hstack Hseg. unfold normalize_step. repeat case_decide; try done.
  - by apply Forall_removelast.
  - apply Forall_app. split; [done|]. by repeat constructor.
Qed.

Lemma foldl_normalize_keeps_clean segs : ∀ stack,
  Forall clean stack → Forall (λ seg, no_separator seg = true) segs →
  Forall clean (foldl normalize_step stack segs).
Proof.
  induction segs as [|seg segs IH]; intros stack Hstack Hsegs; cbn; [done|].
  apply Forall_cons in Hsegs as [Hseg Hsegs].
  apply IH; [|done]. by apply normalize_step_keeps_clean.
Qed.

Lemma normalize_segments_clean p : Forall clean (normalize_segments (segments_of p)).
Proof.
  apply foldl_normalize_keeps_clean; [constructor|apply segments_of_no_separator].
Qed.

Lemma with_separator_segment sep seg :
  no_separator seg = true → with_separator sep seg = seg.
Proof.
  induction seg as [|c seg IH]; cbn; [done|].
  intros [Hc Hseg]%andb_true_iff. rewrite IH by done.
  case_bool_decide as Heq; [|done]. subst c. done.
Qed.

Lemma with_separator_app sep a b :
  with_separator sep (a +:+ b) = with_separator sep a +:+ with_separator sep b.
Proof.
  induction a as [|c a IH]; [reflexivity|].
  exact (f_equal (String (if bool_decide (c = slash) then sep else c)) IH).
Qed.

Lemma string_app_nil_r (s : string) : s +:+ EmptyString = s.
Proof. induction s as [|c s IH]; [reflexivity|]. exact (f_equal (String c) IH). Qed.

Lemma concat_cons2 (sep x y : string) (l : list string) :
  String.concat sep (x :: y :: l) = x +:+ sep +:+ String.concat sep (y :: l).
Proof. reflexivity. Qed.

(** Decoding undoes the encoding of the segments of an id. *)
Lemma percent_decode_id rel :
  percent_decode (String.concat "/" (percent_encode <$> rel)) = String.concat "/" rel.
Proof.
  induction rel as [|x [|y l] IH].
  - reflexivity.
  - cbn [fmap list_fmap String.concat].
    rewrite <- (string_app_nil_r (percent_encode x)), percent_decode_encode_app.
    cbn [percent_decode]. apply string_app_nil_r.
  - change (percent_encode <$> x :: y :: l)
      with (percent_encode x :: percent_encode y :: (percent_encode <$> l)).
    rewrite !concat_cons2, percent_decode_encode_app.
    change (percent_encode y :: (percent_encode <$> l))
      with (percent_encode <$> y :: l).
    rewrite <- IH. reflexivity.
Qed.

(** The segments of the relative part of the path [toPath] builds. *)
Lemma segments_of_relative_part sep rel :
  is_separator sep = true → Forall clean rel →
  ∀ stack,
    foldl normalize_step stack
      (segments_of (with_separator sep (String.concat "/" rel)))
    = stack ++ rel.
Proof.
  intros Hsep. induction rel as [|x [|y l] IH]; intros Hrel stack.
  - cbn. by rewrite app_nil_r.
  - apply Forall_cons in Hrel as [Hx _]. cbn [String.concat].
    pose proof Hx as (_ & _ & _ & Hns).
    rewrite with_separator_segment, segments_of_segment by exact Hns.
    cbn [foldl]. by apply normalize_step_clean.
  - apply Forall_cons in Hrel as [Hx Hrel].
    pose proof Hx as (_ & _ & _ & Hns).
    rewrite concat_cons2, with_separator_app, with_separator_segment by exact Hns.
    change (with_separator sep ("/" +:+ String.concat "/" (y :: l)))
      with (String sep (with_separator sep (String.concat "/" (y :: l)))).
    rewrite segments_of_app, segments_of_segment by assumption.
    rewrite foldl_app. cbn [foldl]. rewrite normalize_step_clean by exact Hx.
    rewrite IH by exact Hrel. by rewrite <- app_assoc.
Qed.

Lemma normalize_segments_app a b :
  normalize_segments (a ++ b) = foldl normalize_step (normalize_segments a) b.
Proof. apply foldl_app. Qed.

Lemma is_separator_separator_of pf : is_separator (separator_of pf) = true.
Proof. by destruct pf. Qed.

(** C9: [resolve] succeeds exactly on the paths contained in the root,
    and [toPath] is a right inverse of it on the ids it produces:
    resolving the path [toPath] gives for an id produced by [resolve]
    gives that id again, on either platform. *)
Theorem C9_toPath_right_inverse_of_resolve (pf : Platform) (root p : string) :
  match resolve root p with
  | Val id => contained root p ∧ resolve root (toPath pf root id) = Val id
  | Exn e => ¬ contained root p
  end.
Proof.
  unfold resolve at 1. case_bool_decide as Hprefix; [|exact Hprefix].
  split; [exact Hprefix|].
  set (rs := normalize_segments (segments_of root)) in *.
  destruct Hprefix as [rel Hrel]. rewrite Hrel, drop_app_length.
  assert (Hclean : Forall clean rel).
  { pose proof (normalize_segments_clean p) as Hp. rewrite Hrel in Hp.
    by apply Forall_app in Hp as [_ Hp]. }
  unfold resolve, toPath.
  rewrite segments_of_app by apply is_separator_separator_of.
  rewrite normalize_segments_app. fold rs.
  rewrite percent_decode_id.
  rewrite segments_of_relative_part
    by (exact Hclean || apply is_separator_separator_of).
  rewrite bool_decide_eq_true_2 by (by exists rel).
  by rewrite drop_app_length.
Qed.

(** The cases of the tests of path-transformers. *)
Example urlFromPath_not_in_root :
  resolve "/this/is/a/path" "/some/other/path/shop-app.html" = Exn "PathEscapesRoot" ∧
  resolve "/the/path" "/the/pathologist/index.html" = Exn "PathEscapesRoot".
Proof. split; reflexivity. Qed.

Example urlFromPath_relative_to_root :
  resolve "/Users/TEST_USER/TEST_ROOT" "/Users/TEST_USER/TEST_ROOT/shop-app.html"
    = Val "shop-app.html" ∧
  resolve "/Users/TEST_USER/TEST_ROOT" "/Users/TEST_USER/TEST_ROOT/src/shop-app.html"
    = Val "src/shop-app.html" ∧
  resolve "C:\Users\TEST_USER\TEST_ROOT"
    "C:\Users\TEST_USER\TEST_ROOT\bower_components\app-layout\docs.html"
    = Val "bower_components/app-layout/docs.html".
Proof. repeat split; reflexivity. Qed.

Example urlFromPath_encodes_spaces :
  resolve "/Users/TEST_USER/TEST_ROOT" "/Users/TEST_USER/TEST_ROOT/spaced out"
    = Val "spaced%20out".
Proof. reflexivity. Qed.

Example pathFromUrl_handles_spaces :
  toPath Posix "/Users/TEST_USER/TEST_ROOT" "hello%20world.txt"
    = "/Users/TEST_USER/TEST_ROOT/hello world.txt" ∧
  toPath Win32 "C:\Users\TEST_USER\TEST_ROOT" "hello%20world.txt"
    = "C:\Users\TEST_USER\TEST_ROOT\hello world.txt".
Proof. split; reflexivity. Qed.

(** * The properties on the sample project *)

Ltac by_compute := vm_compute; first [reflexivity | lia | done].
Ltac by_decide := apply (bool_decide_unpack _); vm_compute; exact I.

Lemma C1_witness :
  ∃ s', _addDependencies "index.html" sample_deps sample_start = (s', Val tt) ∧
        ∀ d, d ∈ imports sample_deps →
             ∃ l, depsToFragments (_dependencyAnalysis s') !! d = Some l ∧
                  d ∈ l ∧ "index.html" ∉ l.
Proof.
  apply (C1_reverse_list_holds_import_not_fragment sample_start "index.html" sample_deps).
  - by_decide.
  - by_decide.
  - intros d l Hl. vm_compute in Hl. discriminate Hl.
Defined.

(** The reverse list of [shared.html] after the index update for
    [index.html], which imports it. *)
Example reverse_list_of_shared_html :
  depsToFragments
    (_dependencyAnalysis (_addDependencies "index.html" sample_deps sample_start).1)
    !! "shared.html" = Some ["shared.html"].
Proof. by_compute. Qed.

(** A second request for a url whose first promise is pending does not
    fail: it returns a second pending promise and registers its
    callbacks. *)
Lemma C2_counterexample :
  files style_requested !! "style.css" = None ∧
  dget "style.css" (deferredFiles style_requested) = Some 0 ∧
  promises style_requested = [Pending] ∧
  (load sample_env "style.css" style_requested).2 = Val 1 ∧
  promises (load sample_env "style.css" style_requested).1 = [Pending; Pending] ∧
  deferredFiles (load sample_env "style.css" style_requested).1 = [("style.css", 1)].
Proof. split_and!; by_compute. Qed.

Lemma C2_witness :
  ∃ s', load sample_env "style.css" style_requested
          = (s', Val (length (promises style_requested))) ∧
        promises s' !! 0 = promises style_requested !! 0 ∧
        dget "style.css" (deferredFiles s') ≠ Some 0 ∧
        NoDup (deferredFiles s').*1 ∧
        (¬ (isSource sample_env (pathFromResolvedUrl sample_env "style.css") = true ∧
            sourceFilesLoaded style_requested = true) →
         dget "style.css" (deferredFiles s') = Some (length (promises style_requested)) ∧
         promises s' !! length (promises style_requested) = Some Pending).
Proof.
  apply (C2_second_request_replaces_callbacks sample_env "style.css" style_requested 0).
  - by_compute.
  - by_compute.
  - by_compute.
  - by_compute.
  - by_decide.
Defined.

(** A second [index.html] through the resolve stage takes the place of
    the first in [files]. *)
Lemma C3_counterexample :
  files index_resolved !! "index.html" = Some (mkFile "index.html" "old") ∧
  files (step sample_env index_resolved (OpResolveFile (mkFile "index.html" "new")))
    !! "index.html" = Some (mkFile "index.html" "new") ∧
  files (step sample_env index_resolved (OpResolveFile (mkFile "index.html" "new")))
    ≠ files index_resolved.
Proof.
  split_and!; [by_compute | by_compute |].
  intros Heq. apply (f_equal (λ m, m !! "index.html")) in Heq.
  vm_compute in Heq. discriminate Heq.
Qed.

Lemma C3_witness :
  ∃ s', resolveFile sample_env (mkFile "index.html" "new") index_resolved = (s', Val tt) ∧
        files s' = <["index.html" := mkFile "index.html" "new"]> (files index_resolved) ∧
        files s' !! "index.html" = Some (mkFile "index.html" "new") ∧
        (∀ u, u ≠ "index.html" → files s' !! u = files index_resolved !! u) ∧
        NoDup (map_to_list (files s')).*1.
Proof.
  apply (C3_second_arrival_replaces_file sample_env (mkFile "index.html" "new")
           "index.html" index_resolved).
  - reflexivity.
  - reflexivity.
Defined.

Lemma C4_witness :
  ∃ s', _done two_requested = (s', Val tt) ∧
        promises s' = settle 0 (Rejected ("Not found: " +:+ "a.css")) (promises two_requested) ∧
        dget "b.css" (deferredFiles s') = Some 1 ∧
        promises s' !! 1 = Some Pending ∧
        analyzeDependencies s' = analyzeDependencies two_requested.
Proof.
  apply (C4_done_rejects_first_deferred_only two_requested "a.css" "b.css" 0 1 []).
  - by_compute.
  - by_compute.
  - discriminate.
  - discriminate.
  - by_compute.
Defined.

(** The run that ends with the analysis of the one fragment while two
    dependencies are deferred: the first promise is rejected, the second
    stays pending. *)
Example done_leaves_second_promise_pending :
  promises (step sample_env two_requested (OpAnalyzeFile index_html (AnalysisOk [] [])))
  = [Rejected "Not found: a.css"; Pending].
Proof. by_compute. Qed.

Lemma C5_witness :
  let res := AnalysisOk [error_warning] [mkFeature "shared.html" "html-import"] in
  let out := analyzeFile sample_env index_html res sample_start in
  out.2 = Val tt ∧
  _sourcesProcessingStream out.1 =
    _sourcesProcessingStream sample_start
      ++ [severityError (count_severity ERROR (warnings out.1))] ∧
  _dependenciesProcessingStream out.1 =
    _dependenciesProcessingStream sample_start
      ++ [severityError (count_severity ERROR (warnings out.1))] ∧
  ∀ ops, analyzeDependencies (run sample_env out.1 ops) = None.
Proof.
  intros res out.
  apply (C5_error_warnings_fail_both_streams sample_env {[ "index.html" ]} []
           index_html res out.1 out.2).
  - intros Heq. apply (f_equal (λ X, bool_decide ("index.html" ∈ X))) in Heq.
    vm_compute in Heq. discriminate Heq.
  - apply surjective_pairing.
  - by_compute.
  - by_compute.
Defined.

(** The error the two streams get in the sample run. *)
Example error_of_sample_run :
  _sourcesProcessingStream
    (step sample_env sample_start
       (OpAnalyzeFile index_html (AnalysisOk [error_warning] [])))
  = ["1 error(s) occurred during build."].
Proof. by_compute. Qed.

Lemma C6_witness :
  let s := run sample_env (step sample_env sample_start OpSourcesStreamComplete)
             [OpLoad "style.css"] in
  ∃ s' p, load sample_env "shared.html" s = (s', Val p) ∧
          promises s' !! p
            = Some (Rejected ("Not found: " +:+ dquote +:+ "shared.html" +:+ dquote)) ∧
          dget "shared.html" (deferredFiles s') = None ∧
          (∀ q, q < length (promises s) → promises s' !! q = promises s !! q).
Proof.
  apply (C6_source_requested_after_sources_ended sample_env sample_start
           [OpLoad "style.css"] "shared.html").
  - by_compute.
  - by_compute.
  - by_compute.
Defined.

Lemma C7_witness :
  _dependenciesStream (run sample_env sample_start [OpLoad "style.css"; OpLoad "style.css"])
  = _dependenciesStream sample_start
      ++ [pathFromResolvedUrl sample_env "style.css";
          pathFromResolvedUrl sample_env "style.css"].
Proof.
  apply (C7_second_request_pushes_again sample_env "style.css" sample_start).
  - by_compute.
  - by_compute.
  - by_compute.
Defined.

Lemma C8_witness :
  (∀ ws features,
     ∃ s', analyzeFile sample_env index_html (AnalysisOk ws features) sample_start
             = (s', Val tt) ∧
           fragmentToDeps (_dependencyAnalysis s') !! "index.html"
             = Some (imports (document_deps sample_env features)) ∧
           allFragmentsToAnalyze s' = allFragmentsToAnalyze sample_start ∖ {["index.html"]} ∧
           "index.html" ∉ allFragmentsToAnalyze s') ∧
  (∀ deps, _addDependencies "index.html" deps index_analyzed =
           (index_analyzed,
            Exn ("Dependency analysis incorrectly called for " +:+ "index.html"))) ∧
  (∀ res, ∃ s' e, analyzeFile sample_env index_html res index_analyzed = (s', Exn e) ∧
                  _dependencyAnalysis s' = _dependencyAnalysis index_analyzed ∧
                  allFragmentsToAnalyze s' = allFragmentsToAnalyze index_analyzed).
Proof.
  split.
  - apply (proj2 (C8_index_update_needs_pending_fragment sample_env index_html
                    "index.html" eq_refl eq_refl sample_start)).
    by_decide.
  - apply (proj1 (C8_index_update_needs_pending_fragment sample_env index_html
                    "index.html" eq_refl eq_refl index_analyzed)).
    by_decide.
Defined.

(** A second analysis of the one fragment of the sample project fails. *)
Example second_analysis_of_index_html :
  (analyzeFile sample_env index_html (AnalysisOk [] []) index_analyzed).2
  = Exn "Dependency analysis incorrectly called for index.html".
Proof. by_compute. Qed.

(** * Further properties *)

(** ** Invariants and sequencing *)

Lemma keeps_ret {A} (I : State → Prop) (a : A) : keeps I (ret a).
Proof. intros s Hs. exact Hs. Qed.

Lemma keeps_bind {A B} (I : State → Prop) (c : M A) (k : A → M B) :
  keeps I c → (∀ a, keeps I (k a)) → keeps I (bind c k).
Proof.
  intros Hc Hk s Hs. unfold bind. specialize (Hc s Hs).
  destruct (c s) as [s' [a|e]]; cbn in *; [|exact Hc]. by apply Hk.
Qed.

Lemma keeps_get (I : State → Prop) : keeps I get.
Proof. intros s Hs. exact Hs. Qed.

Lemma keeps_modify (I : State → Prop) (f : State → State) :
  (∀ s, I s → I (f s)) → keeps I (modify f).
Proof. intros Hf s Hs. by apply Hf. Qed.

Lemma keeps_for_keys (I : State → Prop) live body ks :
  (∀ k, keeps I (body k)) → keeps I (for_keys live body ks).
Proof.
  intros Hbody. induction ks as [|k ks IH]; cbn [for_keys].
  - apply keeps_ret.
  - apply keeps_bind; [apply keeps_get|]. intros s.
    destruct (live k s); [|exact IH].
    apply keeps_bind; [apply Hbody|]. intros [|]; [apply keeps_ret|exact IH].
Qed.

Lemma preserves_keeps {A B} (proj : State → B) (I : State → Prop) (c : M A) :
  (∀ s s', proj s' = proj s → I s → I s') → preserves proj c → keeps I c.
Proof. intros Hframe Hc s Hs. eapply Hframe; [apply Hc|exact Hs]. Qed.

(** ** The table of deferred loads, in every run *)

Lemma dget_elem_of k p d : dget k d = Some p → (k, p) ∈ d.
Proof.
  induction d as [|[k' p'] d IH]; cbn; [done|].
  destruct (decide (k' = k)) as [->|Hne].
  - intros [= ->]. apply list_elem_of_here.
  - intros H. apply list_elem_of_further. by apply IH.
Qed.

Lemma elem_of_dget k p d : NoDup d.*1 → (k, p) ∈ d → dget k d = Some p.
Proof.
  induction d as [|[k' p'] d IH]; cbn; intros Hnd Hin.
  - by apply elem_of_nil in Hin.
  - apply NoDup_cons in Hnd as [Hk Hnd].
    apply elem_of_cons in Hin as [[= <- <-]|Hin].
    + by rewrite decide_True.
    + rewrite decide_False; [by apply IH|].
      intros ->. apply Hk. apply list_elem_of_fmap. by exists (k, p).
Qed.

Lemma elem_of_ddelete u p k d : (u, p) ∈ ddelete k d ↔ (u, p) ∈ d ∧ u ≠ k.
Proof. unfold ddelete. rewrite list_elem_of_filter. cbn. tauto. Qed.

Lemma NoDup_snd_filter (P : ResolvedUrl * nat → Prop) `{∀ x, Decision (P x)}
    (d : list (ResolvedUrl * nat)) :
  NoDup d.*2 → NoDup (filter P d).*2.
Proof.
  induction d as [|[k p] d IH]; [done|].
  rewrite filter_cons. cbn. intros Hnd. apply NoDup_cons in Hnd as [Hp Hnd].
  destruct (decide (P (k, p))); [|by apply IH].
  cbn. apply NoDup_cons. split; [|by apply IH].
  intros Hin. apply Hp. apply list_elem_of_fmap in Hin as ([k1 q1] & -> & Hin).
  apply list_elem_of_fmap. exists (k1, q1). split; [done|].
  by apply list_elem_of_filter in Hin as [_ Hin].
Qed.

Lemma NoDup_snd_inj u u' p (d : list (ResolvedUrl * nat)) :
  NoDup d.*2 → (u, p) ∈ d → (u', p) ∈ d → u = u'.
Proof.
  induction d as [|[k q] d IH]; cbn; intros Hnd H1 H2.
  - by apply elem_of_nil in H1.
  - apply NoDup_cons in Hnd as [Hq Hnd].
    apply elem_of_cons in H1 as [H1|H1]; apply elem_of_cons in H2 as [H2|H2].
    + congruence.
    + injection H1 as -> ->. contradiction Hq.
      apply list_elem_of_fmap. by exists (u', q).
    + injection H2 as -> ->. contradiction Hq.
      apply list_elem_of_fmap. by exists (u, q).
    + by apply IH.
Qed.

Lemma elem_of_dset u p k q d :
  NoDup d.*1 → (u, p) ∈ dset k q d → (u, p) = (k, q) ∨ ((u, p) ∈ d ∧ u ≠ k).
Proof.
  induction d as [|[k' p'] d IH]; unfold dset; fold dset; intros Hnd.
  - intros Hin%list_elem_of_singleton. by left.
  - cbn in Hnd. apply NoDup_cons in Hnd as [Hk Hnd].
    destruct (decide (k' = k)) as [->|Hne].
    + intros [Heq|Hin]%elem_of_cons; [by left|]. right.
      split; [by apply list_elem_of_further|].
      intros ->. apply Hk. apply list_elem_of_fmap. by exists (k, p).
    + intros [Heq|Hin]%elem_of_cons.
      * injection Heq as -> ->. right. split; [apply list_elem_of_here|done].
      * destruct (IH Hnd Hin) as [Heq|[Hin' Hu]]; [by left|].
        right. split; [by apply list_elem_of_further|done].
Qed.

Lemma elem_of_dset_snd x k q d : x ∈ (dset k q d).*2 → x = q ∨ x ∈ d.*2.
Proof.
  induction d as [|[k' p'] d IH]; unfold dset; fold dset; cbn.
  - intros Hin%list_elem_of_singleton. by left.
  - destruct (decide (k' = k)); cbn.
    + intros [->|Hin]%elem_of_cons; [by left|]. right. by apply list_elem_of_further.
    + intros [->|Hin]%elem_of_cons; [right; apply list_elem_of_here|].
      destruct (IH Hin) as [->|Hin']; [by left|]. right. by apply list_elem_of_further.
Qed.

Lemma dset_NoDup_snd k q d : NoDup d.*2 → q ∉ d.*2 → NoDup (dset k q d).*2.
Proof.
  induction d as [|[k' p'] d IH]; unfold dset; fold dset; cbn; intros Hnd Hq.
  - apply NoDup_singleton.
  - apply NoDup_cons in Hnd as [Hp Hnd]. apply not_elem_of_cons in Hq as [Hqp Hq].
    destruct (decide (k' = k)); cbn; apply NoDup_cons.
    + done.
    + split; [|by apply IH].
      intros [->|Hin]%elem_of_dset_snd; [done|contradiction].
Qed.

Lemma table_ok_frame s s' : loader_state s' = loader_state s → table_ok s → table_ok s'.
Proof.
  unfold loader_state, table_ok. intros [= Hd Hp]. by rewrite Hd, Hp.
Qed.

Lemma table_ok_ids s u p : table_ok s → (u, p) ∈ deferredFiles s → p < length (promises s).
Proof. intros (_ & _ & Hpend) Hin. eapply lookup_lt_Some, Hpend, Hin. Qed.

(** Settling the promise of a url and dropping the url keeps the table
    sound. *)
Lemma table_ok_settle_delete s url p st :
  table_ok s → dget url (deferredFiles s) = Some p →
  table_ok (set_deferredFiles (ddelete url (deferredFiles s))
              (set_promises (settle p st (promises s)) s)).
Proof.
  intros (Hk & Hi & Hpend) Hget. unfold table_ok. cbn. split_and!.
  - by apply ddelete_NoDup.
  - by apply NoDup_snd_filter.
  - intros u q [Hin Hu]%elem_of_ddelete.
    rewrite settle_lookup_ne; [by eapply Hpend|].
    intros <-. apply Hu. eapply NoDup_snd_inj; [exact Hi|exact Hin|].
    by apply dget_elem_of.
Qed.

Lemma rejectDeferredFile_keeps_table url err : keeps table_ok (rejectDeferredFile url err).
Proof.
  intros s Hs. destruct (dget url (deferredFiles s)) as [p|] eqn:Hget.
  - erewrite rejectDeferredFile_registered by exact Hget. by apply table_ok_settle_delete.
  - unfold rejectDeferredFile. msimpl. rewrite Hget. exact Hs.
Qed.

Lemma resolveDeferredFile_keeps_table url file : keeps table_ok (resolveDeferredFile url file).
Proof.
  intros s Hs. unfold resolveDeferredFile. msimpl.
  destruct (dget url (deferredFiles s)) as [p|] eqn:Hget; [|exact Hs].
  msimpl. by apply table_ok_settle_delete.
Qed.

(** A new promise, registered or not. *)
Lemma table_ok_new_promise s st :
  table_ok s → table_ok (set_promises (promises s ++ [st]) s).
Proof.
  intros (Hk & Hi & Hpend). unfold table_ok. cbn. split_and!; [done|done|].
  intros u p Hin. rewrite lookup_app_l; [by eapply Hpend|].
  eapply lookup_lt_Some, Hpend, Hin.
Qed.

Lemma table_ok_registered url s : table_ok s → table_ok (registered url s).
Proof.
  intros Hs. pose proof Hs as (Hk & Hi & Hpend). unfold table_ok, registered. cbn.
  split_and!.
  - by apply dset_NoDup.
  - apply dset_NoDup_snd; [done|].
    intros Hin. apply list_elem_of_fmap in Hin as ([u p] & Hp & Hin). cbn in Hp.
    pose proof (table_ok_ids s u p Hs Hin). lia.
  - intros u p Hin. apply elem_of_dset in Hin as [Heq|[Hin Hu]]; [| |done].
    + injection Heq as -> ->. rewrite lookup_app_r by lia. by rewrite Nat.sub_diag.
    + rewrite lookup_app_l; [by eapply Hpend|]. by eapply table_ok_ids.
Qed.

Lemma load_keeps_table env url : keeps table_ok (load env url).
Proof.
  intros s Hs. destruct (canLoad env url) eqn:HcanLoad; cycle 1.
  { unfold load. msimpl. rewrite HcanLoad. msimpl. by apply table_ok_new_promise. }
  destruct (files s !! url) as [file|] eqn:Hfile.
  { unfold load. msimpl. rewrite HcanLoad, Hfile. msimpl. by apply table_ok_new_promise. }
  destruct (isSource env (pathFromResolvedUrl env url)) eqn:Hsrc;
    [destruct (sourceFilesLoaded s) eqn:Hloaded|].
  - rewrite load_source_too_late by assumption. cbn [fst].
    pose proof (table_ok_registered url s Hs) as Hr.
    pose proof (table_ok_settle_delete (registered url s) url (length (promises s))
                  (Rejected ("Not found: " +:+ dquote +:+ url +:+ dquote)) Hr) as Hd.
    cbn in Hd. rewrite settle_fresh in Hd. apply Hd, dget_dset_eq.
  - rewrite load_source_awaited by assumption. by apply table_ok_registered.
  - rewrite load_dependency by assumption. cbn [fst].
    eapply table_ok_frame; [|by apply (table_ok_registered url s)]. reflexivity.
Qed.

Lemma keeps_throw {A} (I : State → Prop) (e : Error) : keeps I (@throw A e).
Proof. intros s Hs. exact Hs. Qed.

Lemma keeps_lift_result {A} (I : State → Prop) (r : Result A) : keeps I (lift_result r).
Proof. destruct r; intros s Hs; exact Hs. Qed.

Lemma keeps_try_catch {A} (I : State → Prop) (c : M A) (h : Error → M A) :
  keeps I c → (∀ e, keeps I (h e)) → keeps I (try_catch c h).
Proof.
  intros Hc Hh s Hs. unfold try_catch. specialize (Hc s Hs).
  destruct (c s) as [s' [a|e]]; cbn in *; [exact Hc|]. by apply Hh.
Qed.

Ltac keeps_table_step :=
  first
    [ apply rejectDeferredFile_keeps_table
    | apply resolveDeferredFile_keeps_table
    | apply load_keeps_table
    | apply keeps_ret
    | apply keeps_throw
    | apply keeps_get
    | apply keeps_lift_result
    | apply keeps_modify;
      let s := fresh "s" in let Hs := fresh "Hs" in
      intros s Hs; try destruct (analyzeDependencies s);
      (eapply table_ok_frame; [|exact Hs]; reflexivity)
    | apply keeps_bind; [|intros ?]
    | apply keeps_try_catch; [|intros ?]
    | apply keeps_for_keys; intros ?
    | match goal with
      | |- keeps _ (match ?x with _ => _ end) => destruct x
      end
    | progress (cbv beta zeta) ].

Lemma run_op_keeps_table env op : keeps table_ok (run_op env op).
Proof.
  destruct op as [file|file res| |url|file]; cbn [run_op].
  - unfold resolveFile, addFile, hasDeferredFile. repeat keeps_table_step.
  - unfold analyzeFile, _getDependencies, _addDependencies, _done, emitAnalysisError.
    repeat keeps_table_step.
  - unfold onSourcesStreamComplete. repeat keeps_table_step.
  - repeat keeps_table_step.
  - unfold addFile. repeat keeps_table_step.
Qed.

Lemma run_keeps_table env ops : ∀ s, table_ok s → table_ok (run env s ops).
Proof.
  induction ops as [|op ops IH]; intros s Hs; [exact Hs|].
  cbn [run foldl]. apply IH. by apply run_op_keeps_table.
Qed.

Lemma reachable_table_ok env fragments ops : table_ok (run env (initial fragments) ops).
Proof.
  apply run_keeps_table. unfold table_ok, initial. cbn. split_and!; try constructor.
  intros u p Hin. by apply elem_of_nil in Hin.
Qed.

(** X1: in every run of the analyzer the table of deferred loads is
    sound: no url is deferred twice, no promise is registered under two
    urls, and the promise registered for a deferred url is still
    pending. *)
Theorem X1_deferred_urls_have_pending_promises
    (env : Env) (fragments : gset string) (ops : list Op) :
  let s := run env (initial fragments) ops in
  NoDup (deferredFiles s).*1 ∧ NoDup (deferredFiles s).*2 ∧
  ∀ u p, dget u (deferredFiles s) = Some p → promises s !! p = Some Pending.
Proof.
  destruct (reachable_table_ok env fragments ops) as (Hkeys & Hids & Hpend).
  split_and!; [done|done|]. intros u p Hget. by eapply Hpend, dget_elem_of.
Qed.

(** ** The end of the sources stream, url by url *)

Lemma settle_lookup_pending_eq p st ps :
  ps !! p = Some Pending → settle p st ps !! p = Some st.
Proof.
  intros Hp. unfold settle. rewrite Hp.
  apply list_lookup_insert_eq. by eapply lookup_lt_Some.
Qed.

Lemma filter_ext_in {A} (P Q : A → Prop) `{!∀ x, Decision (P x), !∀ x, Decision (Q x)}
    (l : list A) :
  (∀ x, x ∈ l → (P x ↔ Q x)) → filter P l = filter Q l.
Proof.
  induction l as [|a l IH]; intros Hext; [done|].
  rewrite !filter_cons.
  assert (Hl : filter P l = filter Q l).
  { apply IH. intros x Hx. apply Hext. by apply list_elem_of_further. }
  pose proof (Hext a (list_elem_of_here _ _)) as Ha.
  destruct (decide (P a)), (decide (Q a)); try tauto; by rewrite Hl.
Qed.

Lemma filter_all {A} (P : A → Prop) `{!∀ x, Decision (P x)} (l : list A) :
  (∀ x, x ∈ l → P x) → filter P l = l.
Proof.
  induction l as [|a l IH]; intros HP; [done|].
  rewrite filter_cons_True by apply HP, list_elem_of_here.
  rewrite IH; [done|]. intros x Hx. by apply HP, list_elem_of_further.
Qed.

Lemma NoDup_fmap_fst_filter (P : ResolvedUrl * nat → Prop) `{∀ x, Decision (P x)}
    (d : list (ResolvedUrl * nat)) :
  NoDup d.*1 → NoDup (filter P d).*1.
Proof.
  induction d as [|[k q] d IH]; [done|].
  rewrite filter_cons. cbn. intros Hnd. apply NoDup_cons in Hnd as [Hk Hnd].
  destruct (decide (P (k, q))); [|by apply IH].
  cbn. apply NoDup_cons. split; [|by apply IH].
  intros Hin. apply Hk. apply list_elem_of_fmap in Hin as ([k1 q1] & -> & Hin).
  apply list_elem_of_fmap. exists (k1, q1). split; [done|].
  by apply list_elem_of_filter in Hin as [_ Hin].
Qed.

Lemma dget_None_not_elem_of k p d : dget k d = None → (k, p) ∉ d.
Proof.
  intros Hget Hin. apply dget_None_keys in Hget. apply Hget.
  apply list_elem_of_fmap. by exists (k, p).
Qed.

Lemma for_keys_cons live body k ks s :
  for_keys live body (k :: ks) s =
  if live k s
  then match body k s with
       | (s1, Val true) => (s1, Val true)
       | (s1, Val false) => for_keys live body ks s1
       | (s1, Exn e) => (s1, Exn e)
       end
  else for_keys live body ks s.
Proof.
  cbn [for_keys]. unfold bind, get. destruct (live k s); [|reflexivity].
  destruct (body k s) as [s1 [[|]|e]]; reflexivity.
Qed.

Lemma reject_missing_source_deferred env k p s :
  source_url env k = true → dget k (deferredFiles s) = Some p →
  reject_missing_source env k s =
  (set_deferredFiles (ddelete k (deferredFiles s))
     (set_promises (settle p (Rejected (notFound k)) (promises s)) s), Val false).
Proof.
  intros Hsrc Hget. unfold reject_missing_source, source_url in *. cbv zeta.
  rewrite Hsrc. unfold bind. erewrite rejectDeferredFile_registered by exact Hget.
  reflexivity.
Qed.

Lemma reject_missing_source_other env k s :
  source_url env k = false → reject_missing_source env k s = (s, Val false).
Proof.
  intros Hsrc. unfold reject_missing_source, source_url in *. cbv zeta.
  by rewrite Hsrc.
Qed.

(** The loop of [onSourcesStreamComplete] over some of the urls. *)
Lemma reject_missing_sources_loop env ks : ∀ s,
  table_ok s →
  let s' := (for_keys live_deferred (reject_missing_source env) ks s).1 in
  deferredFiles s' =
    filter (λ kp, ¬ (source_url env kp.1 = true ∧ kp.1 ∈ ks)) (deferredFiles s) ∧
  (∀ u p, (u, p) ∈ deferredFiles s → source_url env u = true → u ∈ ks →
          promises s' !! p = Some (Rejected (notFound u))) ∧
  (∀ q, (∀ u, (u, q) ∈ deferredFiles s → source_url env u = true → u ∈ ks → False) →
        promises s' !! q = promises s !! q).
Proof.
  induction ks as [|k ks IH]; intros s Hs; cbv zeta.
  - cbn. split_and!.
    + symmetry. apply filter_all. intros x _ [_ Hin]. by apply elem_of_nil in Hin.
    + intros u p _ _ Hin. by apply elem_of_nil in Hin.
    + done.
  - rewrite for_keys_cons.
    destruct (live_deferred k s) eqn:Hlive; cycle 1.
    { (* the url is not deferred *)
      assert (Hget : dget k (deferredFiles s) = None).
      { unfold live_deferred, dhas in Hlive. by destruct (dget k (deferredFiles s)). }
      destruct (IH s Hs) as (Hd & Hrej & Hkeep). split_and!.
      - rewrite Hd. apply filter_ext_in. intros [u p] Hin. cbn.
        assert (u ≠ k) by (intros ->; by eapply dget_None_not_elem_of).
        rewrite elem_of_cons. tauto.
      - intros u p Hin Hsrc [->|Hu]%elem_of_cons; [|by apply Hrej].
        by eapply dget_None_not_elem_of in Hin.
      - intros q Hq. apply Hkeep. intros u Hin Hsrc Hu.
        eapply Hq; [done|done|]. by apply list_elem_of_further. }
    destruct (source_url env k) eqn:Hsrc; cycle 1.
    { (* the url is not a source *)
      rewrite reject_missing_source_other by exact Hsrc.
      destruct (IH s Hs) as (Hd & Hrej & Hkeep). split_and!.
      - rewrite Hd. apply filter_ext_in. intros [u p] Hin. cbn.
        rewrite elem_of_cons. split; [|tauto].
        intros Hn [Hu [->|Hin']]; [congruence|tauto].
      - intros u p Hin Hu [->|Hks]%elem_of_cons; [congruence|by apply Hrej].
      - intros q Hq. apply Hkeep. intros u Hin Hu Hks.
        eapply Hq; [done|done|]. by apply list_elem_of_further. }
    (* a source that is deferred: its promise is rejected *)
    apply dhas_dget in Hlive as [p Hget].
    rewrite (reject_missing_source_deferred env k p s Hsrc Hget).
    set (s1 := set_deferredFiles _ _).
    assert (Hs1 : table_ok s1) by (by apply table_ok_settle_delete).
    pose proof Hs as (Hkeys & Hids & Hpend).
    pose proof (dget_elem_of _ _ _ Hget) as Hkp.
    assert (Hp : promises (for_keys live_deferred (reject_missing_source env) ks s1).1
                   !! p = Some (Rejected (notFound k))).
    { destruct (IH s1 Hs1) as (_ & _ & Hkeep). rewrite Hkeep.
      - subst s1. cbn. apply settle_lookup_pending_eq, (Hpend k p Hkp).
      - intros u Hin' _ _. subst s1. cbn in Hin'.
        apply elem_of_ddelete in Hin' as [Hin' Hne]. apply Hne.
        by eapply NoDup_snd_inj. }
    destruct (IH s1 Hs1) as (Hd & Hrej & Hkeep). split_and!.
    + rewrite Hd. subst s1. cbn. unfold ddelete. rewrite list_filter_filter.
      apply list_filter_iff. intros [u q]. cbn. rewrite elem_of_cons.
      split.
      * intros [Hn Hu] [Hsu [->|Hin]]; [done|tauto].
      * intros Hn. split; [tauto|]. intros ->. tauto.
    + intros u q Hin Hsu Hu.
      destruct (decide (u = k)) as [->|Hne].
      * assert (q = p) as ->; [|exact Hp].
        apply (elem_of_dget _ _ _ Hkeys) in Hin. congruence.
      * apply elem_of_cons in Hu as [->|Hu]; [done|].
        apply Hrej; [|done|done]. subst s1. cbn. by apply elem_of_ddelete.
    + intros q Hq. rewrite Hkeep.
      * subst s1. cbn. apply settle_lookup_ne. intros ->.
        eapply Hq; [exact Hkp|exact Hsrc|apply list_elem_of_here].
      * intros u Hin Hsu Hu. subst s1. cbn in Hin.
        apply elem_of_ddelete in Hin as [Hin Hne].
        eapply Hq; [exact Hin|exact Hsu|by apply list_elem_of_further].
Qed.

Lemma reject_missing_source_returns env k s :
  live_deferred k s = true → ∃ b, (reject_missing_source env k s).2 = Val b.
Proof.
  intros Hlive. destruct (source_url env k) eqn:Hsrc.
  - apply dhas_dget in Hlive as [p Hget].
    rewrite (reject_missing_source_deferred env k p s Hsrc Hget). by exists false.
  - rewrite reject_missing_source_other by exact Hsrc. by exists false.
Qed.

Lemma onSourcesStreamComplete_loop env s :
  onSourcesStreamComplete env s =
  (set_sourceFilesLoaded true
     (for_keys live_deferred (reject_missing_source env) (deferredFiles s).*1 s).1,
   Val tt).
Proof.
  unfold onSourcesStreamComplete. unfold bind at 1. unfold get at 1. unfold bind at 1.
  change (λ url : string, _) with (reject_missing_source env).
  destruct (for_keys_returns (reject_missing_source env) (deferredFiles s).*1
              (reject_missing_source_returns env) s) as [b Hb].
  destruct (for_keys live_deferred (reject_missing_source env) (deferredFiles s).*1 s)
    as [s1 r].
  cbn in Hb. subst r. reflexivity.
Qed.

(** X2: in every run, when the sources stream ends the call returns,
    [sourceFilesLoaded] is set, every deferred url that is a source has its
    promise rejected with [Not found] naming it and is no longer deferred,
    and every other deferred url stays deferred, in the same order, with
    its promise pending. *)
Theorem X2_sources_end_rejects_deferred_sources
    (env : Env) (fragments : gset string) (ops : list Op) :
  let s := run env (initial fragments) ops in
  ∃ s', onSourcesStreamComplete env s = (s', Val tt) ∧
        sourceFilesLoaded s' = true ∧
        deferredFiles s' =
          filter (λ kp, source_url env kp.1 = false) (deferredFiles s) ∧
        (∀ u p, dget u (deferredFiles s) = Some p → source_url env u = true →
                promises s' !! p = Some (Rejected ("Not found: " +:+ u))) ∧
        (∀ u p, dget u (deferredFiles s) = Some p → source_url env u = false →
                promises s' !! p = Some Pending ∧ dget u (deferredFiles s') = Some p).
Proof.
  intros s. pose proof (reachable_table_ok env fragments ops) as Hs. fold s in Hs.
  pose proof Hs as (Hkeys & Hids & Hpend).
  rewrite onSourcesStreamComplete_loop. eexists. split; [reflexivity|]. cbn.
  destruct (reject_missing_sources_loop env (deferredFiles s).*1 s Hs)
    as (Hd & Hrej & Hkeep).
  assert (Hfilter :
    filter (λ kp : string * nat,
              ¬ (source_url env kp.1 = true ∧ kp.1 ∈ (deferredFiles s).*1))
      (deferredFiles s)
    = filter (λ kp, source_url env kp.1 = false) (deferredFiles s)).
  { apply filter_ext_in. intros [u p] Hin. cbn.
    assert (u ∈ (deferredFiles s).*1) by (apply list_elem_of_fmap; by exists (u, p)).
    destruct (source_url env u); split.
    - intros Hn. contradiction Hn. by split.
    - discriminate.
    - done.
    - intros _ [Hx _]. discriminate Hx. }
  split_and!.
  - done.
  - by rewrite Hd.
  - intros u p Hget Hsrc. apply dget_elem_of in Hget. apply Hrej; [done|done|].
    apply list_elem_of_fmap. by exists (u, p).
  - intros u p Hget Hsrc. pose proof (dget_elem_of _ _ _ Hget) as Hin. split.
    + rewrite Hkeep; [by eapply Hpend|].
      intros u' Hin' Hsrc' _.
      assert (u' = u) as -> by (by eapply NoDup_snd_inj). congruence.
    + rewrite Hd, Hfilter. apply elem_of_dget.
      * apply (NoDup_fmap_fst_filter _ _ Hkeys).
      * apply list_elem_of_filter. by split.
Qed.

(** ** A file arrives *)

Section ResolveFile.
Context (env : Env) (file : File) (url url' : ResolvedUrl).
Hypothesis Hurl : resolvePath env (path file) = Val url.
Hypothesis Hnorm : resolvePath env (pathNormalize env (path file)) = Val url'.

Lemma resolveFile_waiting p s :
  dget url (deferredFiles s) = Some p →
  resolveFile env file s =
  (set_deferredFiles (ddelete url (deferredFiles s))
     (set_promises (settle p (Fulfilled (contents file)) (promises s))
        (set_files (<[url' := file]> (files s)) s)), Val tt).
Proof.
  intros Hget. unfold resolveFile, addFile, hasDeferredFile, resolveDeferredFile, dhas.
  msimpl. rewrite Hurl. msimpl. rewrite Hnorm. msimpl. rewrite Hget. msimpl.
  rewrite Hget. reflexivity.
Qed.

Lemma resolveFile_not_waiting s :
  dget url (deferredFiles s) = None →
  resolveFile env file s = (set_files (<[url' := file]> (files s)) s, Val tt).
Proof.
  intros Hget. unfold resolveFile, addFile, hasDeferredFile, resolveDeferredFile, dhas.
  msimpl. rewrite Hurl. msimpl. rewrite Hnorm. msimpl. rewrite Hget. reflexivity.
Qed.
End ResolveFile.

(** X3: in every run, when a file arrives whose url is deferred,
    [resolveFile] returns, stores the file, fulfils the promise registered
    for the url with the contents of the file and drops the url from the
    table; the other deferred urls stay deferred with their promises
    pending. *)
Theorem X3_arrival_fulfils_deferred_promise
    (env : Env) (fragments : gset string) (ops : list Op)
    (file : File) (url url' : ResolvedUrl) (p : nat) :
  let s := run env (initial fragments) ops in
  resolvePath env (path file) = Val url →
  resolvePath env (pathNormalize env (path file)) = Val url' →
  dget url (deferredFiles s) = Some p →
  ∃ s', resolveFile env file s = (s', Val tt) ∧
        promises s' !! p = Some (Fulfilled (contents file)) ∧
        dget url (deferredFiles s') = None ∧
        files s' !! url' = Some file ∧
        (∀ u q, u ≠ url → dget u (deferredFiles s) = Some q →
                dget u (deferredFiles s') = Some q ∧ promises s' !! q = Some Pending).
Proof.
  intros s Hurl Hnorm Hget.
  pose proof (reachable_table_ok env fragments ops) as Hs. fold s in Hs.
  pose proof Hs as (Hkeys & Hids & Hpend).
  pose proof (dget_elem_of _ _ _ Hget) as Hin.
  rewrite (resolveFile_waiting env file url url' Hurl Hnorm p s Hget).
  eexists. split; [reflexivity|]. cbn. split_and!.
  - apply settle_lookup_pending_eq. by eapply Hpend.
  - apply dget_ddelete_eq.
  - apply lookup_insert_eq.
  - intros u q Hu Hq. rewrite dget_ddelete_ne by done. split; [done|].
    pose proof (dget_elem_of _ _ _ Hq) as Hinq.
    rewrite settle_lookup_ne; [by eapply Hpend|].
    intros <-. apply Hu. by eapply NoDup_snd_inj.
Qed.

Lemma ddelete_dset k p d : ddelete k (dset k p d) = ddelete k d.
Proof.
  unfold ddelete. induction d as [|[k' p'] d IH]; unfold dset; fold dset.
  - rewrite filter_cons_False; [done|]. cbn. intros H. by apply H.
  - destruct (decide (k' = k)) as [->|Hne].
    + rewrite !filter_cons_False; [done| |]; cbn; intros H; by apply H.
    + rewrite !filter_cons_True by done. by rewrite IH.
Qed.

Lemma load_stored env url f s :
  canLoad env url = true → files s !! url = Some f →
  load env url s =
  (set_promises (promises s ++ [Fulfilled (contents f)]) s, Val (length (promises s))).
Proof.
  intros HcanLoad Hfile. unfold load. msimpl. rewrite HcanLoad, Hfile. reflexivity.
Qed.

Lemma load_refused env url s :
  canLoad env url = false →
  load env url s =
  (set_promises (promises s ++ [Rejected "Unable to load ${url}."]) s,
   Val (length (promises s))).
Proof. intros HcanLoad. unfold load. msimpl. rewrite HcanLoad. reflexivity. Qed.

Lemma step_load env url s : step env s (OpLoad url) = (load env url s).1.
Proof.
  unfold step. cbn [run_op]. unfold bind. by destruct (load env url s) as [s1 [p|e]].
Qed.

(** X4: a dependency that is requested, arrives and is requested again
    is pushed into the dependencies stream once: the first promise is
    fulfilled by the arrival, the second is fulfilled at once from
    [files], and the url is not deferred afterwards. *)
Theorem X4_request_arrival_request
    (env : Env) (file : File) (url : ResolvedUrl) (s : State) :
  canLoad env url = true →
  files s !! url = None →
  source_url env url = false →
  resolvePath env (path file) = Val url →
  resolvePath env (pathNormalize env (path file)) = Val url →
  let s' := run env s [OpLoad url; OpResolveFile file; OpLoad url] in
  promises s' =
    promises s ++ [Fulfilled (contents file); Fulfilled (contents file)] ∧
  _dependenciesStream s' = _dependenciesStream s ++ [pathFromResolvedUrl env url] ∧
  deferredFiles s' = ddelete url (deferredFiles s) ∧
  files s' = <[url := file]> (files s).
Proof.
  intros HcanLoad Hmissing Hdep Hurl Hnorm. unfold source_url in Hdep.
  assert (Hrun : run env s [OpLoad url; OpResolveFile file; OpLoad url] =
    set_promises (promises s ++ [Fulfilled (contents file); Fulfilled (contents file)])
      (set_deferredFiles (ddelete url (deferredFiles s))
         (set_files (<[url := file]> (files s))
            (set_dependenciesStream
               (_dependenciesStream s ++ [pathFromResolvedUrl env url]) s)))).
  { cbn [run foldl]. rewrite (step_load env url s), load_dependency by assumption.
    cbn [fst].
    unfold step at 2. cbn [run_op].
    rewrite (resolveFile_waiting env file url url Hurl Hnorm (length (promises s)))
      by (cbn; apply dget_dset_eq).
    cbn [fst]. rewrite step_load.
    erewrite load_stored; [|exact HcanLoad|cbn; apply lookup_insert_eq].
    cbn. rewrite settle_fresh, ddelete_dset, <- app_assoc. reflexivity. }
  cbv zeta. rewrite Hrun. cbn. done.
Qed.

(** ** What a run never undoes *)

Ltac keeps_stored_step :=
  first
    [ apply keeps_ret
    | apply keeps_throw
    | apply keeps_get
    | apply keeps_lift_result
    | apply keeps_modify;
      let s := fresh "s" in let Hs := fresh "Hs" in
      intros s Hs; try destruct (analyzeDependencies s);
      first [ exact Hs
            | cbn; rewrite lookup_insert; case_decide; [by eexists|exact Hs] ]
    | apply keeps_bind; [|intros ?]
    | apply keeps_try_catch; [|intros ?]
    | apply keeps_for_keys; intros ?
    | match goal with
      | |- keeps _ (match ?x with _ => _ end) => destruct x
      end
    | progress (cbv beta zeta) ].

Lemma run_op_keeps_stored env op u :
  keeps (λ s, is_Some (files s !! u)) (run_op env op).
Proof.
  destruct op as [file|file res| |url|file]; cbn [run_op].
  - unfold resolveFile, addFile, hasDeferredFile, resolveDeferredFile.
    repeat keeps_stored_step.
  - unfold analyzeFile, _getDependencies, _addDependencies, _done, emitAnalysisError,
      rejectDeferredFile.
    repeat keeps_stored_step.
  - unfold onSourcesStreamComplete, rejectDeferredFile. repeat keeps_stored_step.
  - unfold load, sourceUrlAnalyzed, dependencyUrlAnalyzed, rejectDeferredFile.
    repeat keeps_stored_step.
  - unfold addFile. repeat keeps_stored_step.
Qed.

Lemma run_keeps_stored env ops u : ∀ s,
  is_Some (files s !! u) → is_Some (files (run env s ops) !! u).
Proof.
  induction ops as [|op ops IH]; intros s Hs; [exact Hs|].
  cbn [run foldl]. apply IH. by apply (run_op_keeps_stored env op u).
Qed.

(** X5: a url that is in [files] stays in [files] whatever happens, and
    every later request for it is answered at once with the contents of
    the file stored at that time: nothing is deferred and nothing is
    pushed into the dependencies stream. *)
Theorem X5_stored_url_is_served_at_once
    (env : Env) (s : State) (ops : list Op) (url : ResolvedUrl) :
  canLoad env url = true →
  is_Some (files s !! url) →
  let s1 := run env s ops in
  ∃ f, files s1 !! url = Some f ∧
       load env url s1 =
       (set_promises (promises s1 ++ [Fulfilled (contents f)]) s1,
        Val (length (promises s1))).
Proof.
  intros HcanLoad Hstored s1.
  destruct (run_keeps_stored env ops url s Hstored) as [f Hf]. fold s1 in Hf.
  exists f. split; [exact Hf|]. by apply load_stored.
Qed.

(** ** The dependencies stream *)

Lemma load_pushes env url s :
  _dependenciesStream (load env url s).1 = _dependenciesStream s ∨
  (source_url env url = false ∧
   _dependenciesStream (load env url s).1 =
   _dependenciesStream s ++ [pathFromResolvedUrl env url]).
Proof.
  destruct (canLoad env url) eqn:HcanLoad; cycle 1.
  { left. by rewrite load_refused. }
  destruct (files s !! url) as [file|] eqn:Hfile.
  { left. by erewrite load_stored. }
  unfold source_url.
  destruct (isSource env (pathFromResolvedUrl env url)) eqn:Hsrc;
    [destruct (sourceFilesLoaded s) eqn:Hloaded|].
  - left. by rewrite load_source_too_late.
  - left. by rewrite load_source_awaited.
  - right. split; [done|]. by rewrite load_dependency.
Qed.

Lemma run_op_preserves_stream env op :
  (∀ url, op ≠ OpLoad url) → preserves _dependenciesStream (run_op env op).
Proof.
  intros Hop. destruct op as [file|file res| |url|file]; cbn [run_op].
  - unfold resolveFile, addFile, hasDeferredFile, resolveDeferredFile.
    solve_preserves_zeta.
  - unfold analyzeFile, _getDependencies, _addDependencies.
    solve_preserves_zeta.
    intros s1. unfold modify. cbn. destruct (analyzeDependencies s1); reflexivity.
  - unfold onSourcesStreamComplete, rejectDeferredFile. solve_preserves_zeta.
  - by contradiction (Hop url).
  - unfold addFile. solve_preserves_zeta.
Qed.

Lemma run_pushes env ops : ∀ s p,
  p ∈ _dependenciesStream (run env s ops) →
  p ∈ _dependenciesStream s ∨
  ∃ url, OpLoad url ∈ ops ∧ p = pathFromResolvedUrl env url ∧ source_url env url = false.
Proof.
  induction ops as [|op ops IH]; intros s p Hp; [by left|].
  cbn [run foldl] in Hp. apply IH in Hp as [Hp|(url & Hin & Hpu)].
  - assert (Hcase : (∃ url, op = OpLoad url) ∨ (∀ url, op ≠ OpLoad url)).
    { destruct op; try (right; intros ?; discriminate). left. by eexists. }
    destruct Hcase as [[url ->]|Hop].
    + rewrite step_load in Hp.
      destruct (load_pushes env url s) as [Heq|[Hsrc Heq]]; rewrite Heq in Hp.
      * by left.
      * apply elem_of_app in Hp as [Hp|Hp%list_elem_of_singleton]; [by left|].
        right. exists url. split; [apply list_elem_of_here|done].
    + left. unfold step in Hp. by rewrite run_op_preserves_stream in Hp.
  - right. exists url. split; [by apply list_elem_of_further|done].
Qed.

(** X6: every path in the dependencies stream of a run is the path of a
    url the loader was asked for and is not the path of a declared source:
    sources are left to the sources stream. *)
Theorem X6_only_requested_dependencies_are_pushed
    (env : Env) (fragments : gset string) (ops : list Op) (p : string) :
  p ∈ _dependenciesStream (run env (initial fragments) ops) →
  ∃ url, OpLoad url ∈ ops ∧ p = pathFromResolvedUrl env url ∧ isSource env p = false.
Proof.
  intros Hp. apply run_pushes in Hp as [Hp|(url & Hin & -> & Hsrc)].
  - by apply elem_of_nil in Hp.
  - by exists url.
Qed.

(** ** The index, in every run *)

Lemma index_ok_frame fragments s s' :
  index_state s' = index_state s → index_ok fragments s → index_ok fragments s'.
Proof.
  unfold index_state, index_ok. intros [= Hfr Hres Hidx Hend].
  by rewrite Hfr, Hres, Hidx, Hend.
Qed.

Lemma _done_index_state s :
  index_state (_done s).1 = index_state s ∨
  (analyzeDependencies s = None ∧
   index_state (_done s).1 =
   (allFragmentsToAnalyze s, Some (_dependencyAnalysis s), _dependencyAnalysis s, true)) ∨
  (is_Some (analyzeDependencies s) ∧
   index_state (_done s).1 =
   (allFragmentsToAnalyze s, analyzeDependencies s, _dependencyAnalysis s, true)).
Proof.
  destruct (decide (count_severity ERROR (warnings s) = 0)) as [Hzero|Hpos].
  - destruct (deferredFiles s) as [|[u p] rest] eqn:Hd.
    + rewrite _done_nothing_deferred by assumption.
      destruct (analyzeDependencies s) eqn:Hres.
      * right. right. split; [done|]. unfold index_state. cbn. by rewrite Hres.
      * right. left. split; [done|]. reflexivity.
    + left. by erewrite _done_first_deferred.
  - left. by rewrite _done_errors by lia.
Qed.

Lemma analyzed_index_ok fragments env url ws features s :
  url ∈ allFragmentsToAnalyze s →
  index_ok fragments s → index_ok fragments (analyzed env url ws features s).
Proof.
  intros Hin (Hfr & Hagree & Hres). unfold index_ok, analyzed. cbn. split_and!.
  - intros f Hf. destruct (decide (f = url)) as [->|Hne].
    + right. rewrite lookup_insert_eq. by eexists.
    + destruct (Hfr f Hf) as [Hp|Hentry].
      * left. apply elem_of_difference. split; [done|].
        by intros ->%elem_of_singleton.
      * right. by rewrite lookup_insert_ne.
  - intros f. rewrite !lookup_insert. case_decide; [done|apply Hagree].
  - intros i Hi. destruct (Hres i Hi) as (_ & Hempty & _).
    rewrite Hempty in Hin. by apply not_elem_of_empty in Hin.
Qed.

Lemma analyzeFile_keeps_index fragments env file res :
  keeps (index_ok fragments) (analyzeFile env file res).
Proof.
  intros s Hs.
  destruct (isFragment env (path file)) eqn:Hfragment; cycle 1.
  { unfold analyzeFile. by rewrite Hfragment. }
  destruct (resolvePath env (path file)) as [url|e] eqn:Hurl; cycle 1.
  { unfold analyzeFile. by rewrite Hfragment, Hurl. }
  destruct res as [msg|ws features].
  { by destruct (analyzeFile_failed env file url Hfragment Hurl msg s) as [e ->]. }
  destruct (decide (url ∈ allFragmentsToAnalyze s)) as [Hin|Hnot]; cycle 1.
  { rewrite (analyzeFile_stray env file url Hfragment Hurl) by exact Hnot.
    eapply index_ok_frame; [|exact Hs]. reflexivity. }
  rewrite (analyzeFile_pending env file url Hfragment Hurl) by exact Hin.
  pose proof (analyzed_index_ok fragments env url ws features s Hin Hs) as Ha.
  case_bool_decide as Hsize; [|exact Ha].
  set (s3 := analyzed env url ws features s) in *.
  assert (Hunresolved : analyzeDependencies s3 = None).
  { destruct (analyzeDependencies s3) as [i|] eqn:Hi; [|done].
    destruct Hs as (_ & _ & Hres). destruct (Hres i Hi) as (_ & Hempty & _).
    rewrite Hempty in Hin. by apply not_elem_of_empty in Hin. }
  destruct (_done_index_state s3) as [Heq|[[_ Heq]|[[i Hi] _]]].
  - eapply index_ok_frame; [exact Heq|exact Ha].
  - unfold index_state in Heq. injection Heq as Hfr Hres Hidx Hend.
    destruct Ha as (Hfrs & Hagree & _). unfold index_ok.
    rewrite Hfr, Hres, Hidx, Hend. split_and!; [done|done|].
    intros i [= <-]. split_and!; [done| |done].
    apply leibniz_equiv, size_empty_iff, Hsize.
  - congruence.
Qed.

Lemma run_op_preserves_index_state env op :
  (∀ file res, op ≠ OpAnalyzeFile file res) → preserves index_state (run_op env op).
Proof.
  intros Hop. destruct op as [file|file res| |url|file]; cbn [run_op].
  - unfold resolveFile, addFile, hasDeferredFile, resolveDeferredFile.
    solve_preserves_zeta.
  - by contradiction (Hop file res).
  - unfold onSourcesStreamComplete, rejectDeferredFile. solve_preserves_zeta.
  - unfold load, sourceUrlAnalyzed, dependencyUrlAnalyzed, rejectDeferredFile.
    solve_preserves_zeta.
  - unfold addFile. solve_preserves_zeta.
Qed.

Lemma run_op_keeps_index fragments env op : keeps (index_ok fragments) (run_op env op).
Proof.
  assert (Hcase : (∃ file res, op = OpAnalyzeFile file res) ∨
                  (∀ file res, op ≠ OpAnalyzeFile file res)).
  { destruct op; try (right; intros ? ?; discriminate). left. by eexists _, _. }
  destruct Hcase as [(file & res & ->)|Hop].
  - apply analyzeFile_keeps_index.
  - intros s Hs. eapply index_ok_frame; [|exact Hs].
    by apply run_op_preserves_index_state.
Qed.

Lemma reachable_index_ok env fragments ops :
  index_ok fragments (run env (initial fragments) ops).
Proof.
  assert (Hrun : ∀ s, index_ok fragments s → index_ok fragments (run env s ops)).
  { induction ops as [|op ops IH]; intros s Hs; [exact Hs|].
    cbn [run foldl]. apply IH. by apply run_op_keeps_index. }
  apply Hrun. unfold index_ok, initial. cbn. split_and!.
  - intros f Hf. by left.
  - intros f. by rewrite !lookup_empty.
  - intros i Hi. discriminate Hi.
Qed.

(** X7: when [analyzeDependencies] is resolved in a run, it is with the
    index as it stands at that time, the dependencies stream is ended, and
    the index has an entry for each fragment the run started with, in
    [fragmentToFullDeps] and, with the imports of that entry, in
    [fragmentToDeps]. *)
Theorem X7_resolved_index_covers_all_fragments
    (env : Env) (fragments : gset string) (ops : list Op) (index : DepsIndex) :
  let s := run env (initial fragments) ops in
  analyzeDependencies s = Some index →
  index = _dependencyAnalysis s ∧
  _dependenciesStreamEnded s = true ∧
  ∀ f, f ∈ fragments →
       ∃ deps, fragmentToFullDeps index !! f = Some deps ∧
               fragmentToDeps index !! f = Some (imports deps).
Proof.
  intros s Hres.
  destruct (reachable_index_ok env fragments ops) as (Hfr & Hagree & Hresolved).
  fold s in Hfr, Hagree, Hresolved.
  destruct (Hresolved index Hres) as (-> & Hempty & Hended).
  split_and!; [done|done|]. intros f Hf.
  destruct (Hfr f Hf) as [Hp|[deps Hdeps]].
  - rewrite Hempty in Hp. by apply not_elem_of_empty in Hp.
  - exists deps. split; [done|]. by rewrite Hagree, Hdeps.
Qed.

Lemma step_index_closed env s op :
  allFragmentsToAnalyze s = ∅ → index_state (step env s op) = index_state s.
Proof.
  intros Hempty. unfold step.
  assert (Hcase : (∃ file res, op = OpAnalyzeFile file res) ∨
                  (∀ file res, op ≠ OpAnalyzeFile file res)).
  { destruct op; try (right; intros ? ?; discriminate). left. by eexists _, _. }
  destruct Hcase as [(file & res & ->)|Hop]; [|by apply run_op_preserves_index_state].
  cbn [run_op].
  destruct (isFragment env (path file)) eqn:Hfragment; cycle 1.
  { unfold analyzeFile. by rewrite Hfragment. }
  destruct (resolvePath env (path file)) as [url|e] eqn:Hurl; cycle 1.
  { unfold analyzeFile. by rewrite Hfragment, Hurl. }
  destruct res as [msg|ws features].
  { by destruct (analyzeFile_failed env file url Hfragment Hurl msg s) as [e ->]. }
  rewrite (analyzeFile_stray env file url Hfragment Hurl); [reflexivity|].
  rewrite Hempty. apply not_elem_of_empty.
Qed.

Lemma run_index_closed env ops : ∀ s,
  allFragmentsToAnalyze s = ∅ → index_state (run env s ops) = index_state s.
Proof.
  induction ops as [|op ops IH]; intros s Hempty; [reflexivity|].
  change (index_state (run env (step env s op) ops) = index_state s).
  pose proof (step_index_closed env s op Hempty) as Hstep.
  rewrite IH; [exact Hstep|].
  unfold index_state in Hstep. injection Hstep as Hfr _ _ _. congruence.
Qed.

Lemma run_app env s ops ops' : run env s (ops ++ ops') = run env (run env s ops) ops'.
Proof. apply foldl_app. Qed.

(** X8: the index is handed out once and for all: after
    [analyzeDependencies] is resolved in a run, whatever happens next it
    stays resolved with the same index, the index of the analyzer does not
    change any more and no fragment becomes pending again. *)
Theorem X8_resolved_index_is_final
    (env : Env) (fragments : gset string) (ops ops' : list Op) (index : DepsIndex) :
  analyzeDependencies (run env (initial fragments) ops) = Some index →
  let s' := run env (initial fragments) (ops ++ ops') in
  analyzeDependencies s' = Some index ∧
  _dependencyAnalysis s' = index ∧
  allFragmentsToAnalyze s' = ∅.
Proof.
  intros Hres s'. subst s'. rewrite run_app.
  destruct (reachable_index_ok env fragments ops) as (_ & _ & Hresolved).
  destruct (Hresolved index Hres) as (Hidx & Hempty & _).
  pose proof (run_index_closed env ops' _ Hempty) as Hclosed.
  unfold index_state in Hclosed. injection Hclosed as Hfr Hr Hi _.
  split_and!; congruence.
Qed.

(** X9: the analysis of the last fragment, when no warning of severity
    ERROR is recorded and no load is deferred, ends the dependencies
    stream and resolves [analyzeDependencies] with the index, which holds
    the dependencies found for the fragment; no error is emitted on either
    stream. *)
Theorem X9_last_fragment_resolves_index
    (env : Env) (file : File) (url : ResolvedUrl)
    (ws : list Warning) (features : list ImportFeature) (s : State) :
  isFragment env (path file) = true →
  resolvePath env (path file) = Val url →
  allFragmentsToAnalyze s = {[ url ]} →
  analyzeDependencies s = None →
  deferredFiles s = [] →
  count_severity ERROR (analyzed_warnings env ws s) = 0 →
  ∃ s', analyzeFile env file (AnalysisOk ws features) s = (s', Val tt) ∧
        analyzeDependencies s' = Some (_dependencyAnalysis s') ∧
        fragmentToFullDeps (_dependencyAnalysis s') !! url
          = Some (document_deps env features) ∧
        allFragmentsToAnalyze s' = ∅ ∧
        _dependenciesStreamEnded s' = true ∧
        _sourcesProcessingStream s' = _sourcesProcessingStream s ∧
        _dependenciesProcessingStream s' = _dependenciesProcessingStream s.
Proof.
  intros Hfragment Hurl Hlast Hunresolved Hnone Hzero.
  rewrite (analyzeFile_pending env file url Hfragment Hurl)
    by (rewrite Hlast; by apply elem_of_singleton).
  assert (Hempty : allFragmentsToAnalyze s ∖ {[url]} = ∅).
  { rewrite Hlast. apply leibniz_equiv. apply difference_diag. }
  rewrite bool_decide_eq_true_2 by (rewrite Hempty; apply size_empty).
  rewrite _done_nothing_deferred by done.
  cbn. rewrite Hunresolved. eexists. split; [reflexivity|]. cbn.
  split_and!; try done. apply lookup_insert_eq.
Qed.

(** ** The dependencies of a document *)

Lemma elem_of_set_add `{EqDecision A} (x y : A) (l : list A) :
  y ∈ set_add x l ↔ y = x ∨ y ∈ l.
Proof.
  unfold set_add. destruct (decide (x ∈ l)) as [Hin|Hnot].
  - split; [by right|]. by intros [->|?].
  - rewrite elem_of_app, list_elem_of_singleton. tauto.
Qed.

Lemma NoDup_set_add `{EqDecision A} (x : A) (l : list A) :
  NoDup l → NoDup (set_add x l).
Proof.
  intros Hnd. unfold set_add. destruct (decide (x ∈ l)) as [Hin|Hnot]; [done|].
  apply NoDup_app. split_and!; [done| |apply NoDup_singleton].
  intros y Hy ->%list_elem_of_singleton. contradiction.
Qed.

Lemma reported_one env kind f u :
  reported env kind [f] u ↔
  furl f = u ∧ ftype f = kind ∧ is_Some (resolveUrl env u).
Proof.
  unfold reported. split.
  - intros (f' & ->%list_elem_of_singleton & H). exact H.
  - intros H. exists f. split; [apply list_elem_of_here|exact H].
Qed.

Lemma reported_added env kind f u l :
  ftype f = kind → is_Some (resolveUrl env (furl f)) →
  u ∈ set_add (furl f) l ↔ u ∈ l ∨ reported env kind [f] u.
Proof.
  intros Hk Hr. rewrite reported_one, elem_of_set_add. split.
  - intros [->|Hu]; [right|by left]. done.
  - intros [Hu|(<- & _ & _)]; [by right|by left].
Qed.

Lemma reported_skipped env kind f u (l : list string) :
  ftype f ≠ kind ∨ resolveUrl env (furl f) = None →
  u ∈ l ↔ u ∈ l ∨ reported env kind [f] u.
Proof.
  intros Hskip. rewrite reported_one. split; [by left|].
  intros [Hu|(<- & Hk & Hr)]; [done|].
  destruct Hskip as [Hne|Hnone]; [done|]. rewrite Hnone in Hr. by destruct Hr.
Qed.

(** One turn of the loop of [_getDependencies]. *)
Lemma classify_step env acc f :
  (NoDup (imports acc) → NoDup (imports (classify env acc f))) ∧
  (NoDup (scripts acc) → NoDup (scripts (classify env acc f))) ∧
  (NoDup (styles acc) → NoDup (styles (classify env acc f))) ∧
  ∀ u,
    (u ∈ imports (classify env acc f) ↔
       u ∈ imports acc ∨ reported env "html-import" [f] u) ∧
    (u ∈ scripts (classify env acc f) ↔
       u ∈ scripts acc ∨ reported env "html-script" [f] u) ∧
    (u ∈ styles (classify env acc f) ↔
       u ∈ styles acc ∨ reported env "html-style" [f] u).
Proof.
  unfold classify. destruct (resolveUrl env (furl f)) as [r|] eqn:Hres; cycle 1.
  { split_and!; try done. intros u.
    split_and!; apply reported_skipped; by right. }
  assert (Hsome : is_Some (resolveUrl env (furl f))) by (rewrite Hres; by eexists).
  destruct (decide (ftype f = "html-script")) as [Hk|Hk1];
    [|destruct (decide (ftype f = "html-style")) as [Hk|Hk2];
      [|destruct (decide (ftype f = "html-import")) as [Hk|Hk3]]];
    cbn; (split_and!; [try done; by apply NoDup_set_add ..|]); intros u;
    split_and!;
    first [ by apply reported_added
          | apply reported_skipped; left; first [assumption | rewrite Hk; discriminate] ].
Qed.

Lemma reported_cons env kind f features u :
  reported env kind (f :: features) u ↔
  reported env kind [f] u ∨ reported env kind features u.
Proof.
  unfold reported. split.
  - intros (f' & [->|Hin]%elem_of_cons & H).
    + left. exists f. split; [apply list_elem_of_here|exact H].
    + right. by exists f'.
  - intros [(f' & ->%list_elem_of_singleton & H)|(f' & Hin & H)].
    + exists f. split; [apply list_elem_of_here|exact H].
    + exists f'. split; [by apply list_elem_of_further|exact H].
Qed.

Lemma classify_foldl env features : ∀ acc,
  let d := foldl (classify env) acc features in
  (NoDup (imports acc) → NoDup (imports d)) ∧
  (NoDup (scripts acc) → NoDup (scripts d)) ∧
  (NoDup (styles acc) → NoDup (styles d)) ∧
  ∀ u,
    (u ∈ imports d ↔ u ∈ imports acc ∨ reported env "html-import" features u) ∧
    (u ∈ scripts d ↔ u ∈ scripts acc ∨ reported env "html-script" features u) ∧
    (u ∈ styles d ↔ u ∈ styles acc ∨ reported env "html-style" features u).
Proof.
  induction features as [|f features IH]; intros acc; cbv zeta.
  - cbn. split_and!; try done. intros u.
    split_and!; (split; [by left|intros [?|(f & Hin & _)]; [done|]];
                 by apply elem_of_nil in Hin).
  - cbn [foldl]. destruct (classify_step env acc f) as (Hi & Hsc & Hst & Hmem).
    destruct (IH (classify env acc f)) as (Hi' & Hsc' & Hst' & Hmem').
    split_and!; [by auto|by auto|by auto|]. intros u.
    destruct (Hmem u) as (H1 & H2 & H3). destruct (Hmem' u) as (H1' & H2' & H3').
    rewrite (reported_cons env "html-import" f features),
      (reported_cons env "html-script" f features),
      (reported_cons env "html-style" f features), H1', H2', H3', H1, H2, H3.
    tauto.
Qed.

(** X10: the dependencies [_getDependencies] returns for a document hold
    no url twice in a list, and hold exactly the urls of the features the
    analyzer reports that it can resolve: as imports those of type
    [html-import], as scripts those of type [html-script], as styles those
    of type [html-style]; features of any other type are left out. *)
Theorem X10_dependencies_are_the_resolvable_features
    (env : Env) (url : ResolvedUrl) (ws : list Warning)
    (features : list ImportFeature) (s : State) :
  ∃ deps, (_getDependencies env url (AnalysisOk ws features) s).2 = Val deps ∧
    NoDup (imports deps) ∧ NoDup (scripts deps) ∧ NoDup (styles deps) ∧
    ∀ u, (u ∈ imports deps ↔ reported env "html-import" features u) ∧
         (u ∈ scripts deps ↔ reported env "html-script" features u) ∧
         (u ∈ styles deps ↔ reported env "html-style" features u).
Proof.
  eexists. split; [reflexivity|].
  destruct (classify_foldl env features (mkDeps [] [] [])) as (Hi & Hsc & Hst & Hmem).
  cbn in Hi, Hsc, Hst, Hmem.
  split_and!; [apply Hi; constructor|apply Hsc; constructor|apply Hst; constructor|].
  intros u. destruct (Hmem u) as (H1 & H2 & H3). rewrite H1, H2, H3.
  split_and!; (split; [intros [Hin|?]; [by apply elem_of_nil in Hin|done]|by right]).
Qed.

(** ** The warnings *)

Lemma foldl_set_add_spec `{EqDecision A} (xs : list A) : ∀ l : list A,
  (NoDup l → NoDup (foldl (λ acc x, set_add x acc) l xs)) ∧
  ∀ y, y ∈ foldl (λ acc x, set_add x acc) l xs ↔ y ∈ l ∨ y ∈ xs.
Proof.
  induction xs as [|x xs IH]; intros l; cbn [foldl].
  - split; [done|]. intros y. split; [by left|]. intros [?|Hin]; [done|].
    by apply elem_of_nil in Hin.
  - destruct (IH (set_add x l)) as [Hnd Hmem]. split.
    + intros Hl. by apply Hnd, NoDup_set_add.
    + intros y. rewrite Hmem, elem_of_set_add, elem_of_cons. tauto.
Qed.






(** ** Each fragment is analyzed once *)

(** The pending fragments and the index after one operation: as they
    were, or one pending fragment less and the index updated for it. *)
Lemma step_index_cases env s op :
  (allFragmentsToAnalyze (step env s op) = allFragmentsToAnalyze s ∧
   _dependencyAnalysis (step env s op) = _dependencyAnalysis s) ∨
  ∃ url ws features,
    url ∈ allFragmentsToAnalyze s ∧
    allFragmentsToAnalyze (step env s op) = allFragmentsToAnalyze s ∖ {[url]} ∧
    _dependencyAnalysis (step env s op)
      = _dependencyAnalysis (analyzed env url ws features s).
Proof.
  unfold step.
  assert (Hcase : (∃ file res, op = OpAnalyzeFile file res) ∨
                  (∀ file res, op ≠ OpAnalyzeFile file res)).
  { destruct op; try (right; intros ? ?; discriminate). left. by eexists _, _. }
  destruct Hcase as [(file & res & ->)|Hop].
  2:{ left. pose proof (run_op_preserves_index_state env op Hop s) as Heq.
      unfold index_state in Heq. injection Heq as Hfr _ Hidx _. done. }
  cbn [run_op].
  destruct (isFragment env (path file)) eqn:Hfragment; cycle 1.
  { left. unfold analyzeFile. by rewrite Hfragment. }
  destruct (resolvePath env (path file)) as [url|e] eqn:Hurl; cycle 1.
  { left. unfold analyzeFile. by rewrite Hfragment, Hurl. }
  destruct res as [msg|ws features].
  { left. by destruct (analyzeFile_failed env file url Hfragment Hurl msg s) as [e ->]. }
  destruct (decide (url ∈ allFragmentsToAnalyze s)) as [Hin|Hnot].
  - right. exists url, ws, features. split; [done|].
    by destruct (analyzeFile_pending_returns env file url Hfragment Hurl ws features s Hin)
      as (s' & -> & Hidx & Hfr & _).
  - left. by rewrite (analyzeFile_stray env file url Hfragment Hurl).
Qed.

Lemma step_keeps_entry env s op f deps :
  pending_fresh s →
  fragmentToFullDeps (_dependencyAnalysis s) !! f = Some deps →
  pending_fresh (step env s op) ∧
  fragmentToFullDeps (_dependencyAnalysis (step env s op)) !! f = Some deps.
Proof.
  intros Hfresh Hentry.
  destruct (step_index_cases env s op)
    as [[Hfr Hidx]|(url & ws & features & Hin & Hfr & Hidx)].
  - unfold pending_fresh. by rewrite Hfr, Hidx.
  - unfold pending_fresh. rewrite Hfr, Hidx. cbn. split.
    + intros g [Hg Hne]%elem_of_difference.
      rewrite lookup_insert_ne; [by apply Hfresh|].
      intros ->. apply Hne. by apply elem_of_singleton.
    + rewrite lookup_insert_ne; [done|].
      intros ->. specialize (Hfresh f Hin). congruence.
Qed.

Lemma step_keeps_fresh env s op : pending_fresh s → pending_fresh (step env s op).
Proof.
  intros Hfresh.
  destruct (step_index_cases env s op)
    as [[Hfr Hidx]|(url & ws & features & Hin & Hfr & Hidx)].
  - unfold pending_fresh. by rewrite Hfr, Hidx.
  - unfold pending_fresh. rewrite Hfr, Hidx. cbn.
    intros g [Hg Hne]%elem_of_difference.
    rewrite lookup_insert_ne; [by apply Hfresh|].
    intros ->. apply Hne. by apply elem_of_singleton.
Qed.

Lemma run_keeps_fresh env ops : ∀ s, pending_fresh s → pending_fresh (run env s ops).
Proof.
  induction ops as [|op ops IH]; intros s Hs; [exact Hs|].
  cbn [run foldl]. by apply IH, step_keeps_fresh.
Qed.

Lemma run_keeps_entry env ops f deps : ∀ s,
  pending_fresh s →
  fragmentToFullDeps (_dependencyAnalysis s) !! f = Some deps →
  fragmentToFullDeps (_dependencyAnalysis (run env s ops)) !! f = Some deps.
Proof.
  induction ops as [|op ops IH]; intros s Hfresh Hentry; [exact Hentry|].
  cbn [run foldl].
  destruct (step_keeps_entry env s op f deps Hfresh Hentry) as [Hfresh' Hentry'].
  by apply IH.
Qed.

(** X12: in a run the dependencies recorded for a fragment are recorded
    once: a fragment that has an entry in the index is not pending, and
    its entry is the same after whatever happens next. *)
Theorem X12_index_entry_is_recorded_once
    (env : Env) (fragments : gset string) (ops ops' : list Op)
    (f : ResolvedUrl) (deps : DocumentDeps) :
  fragmentToFullDeps (_dependencyAnalysis (run env (initial fragments) ops)) !! f
    = Some deps →
  (f ∉ allFragmentsToAnalyze (run env (initial fragments) ops)) ∧
  fragmentToFullDeps
    (_dependencyAnalysis (run env (initial fragments) (ops ++ ops'))) !! f
    = Some deps.
Proof.
  intros Hentry.
  assert (Hfresh : pending_fresh (run env (initial fragments) ops)).
  { apply run_keeps_fresh. intros g _. apply lookup_empty. }
  split.
  - intros Hin. specialize (Hfresh f Hin). congruence.
  - rewrite run_app. by apply run_keeps_entry.
Qed.

(** ** [SourceDependenciesStream] *)

Section SourceDependenciesStream.
Context (matchesSource : string → bool) (extname : string → string).

Lemma pushDependency_ok st p :
  stream_ok matchesSource st → stream_ok matchesSource (pushDependency matchesSource st p).
Proof.
  intros (Heq & Hnd & Hsrc). unfold pushDependency.
  destruct (decide (p ∈ stream_files st)) as [Hin|Hnot]; [done|].
  destruct (matchesSource p) eqn:Hp; [done|].
  unfold stream_ok. cbn. split_and!.
  - by rewrite Heq.
  - apply NoDup_app. split_and!; [done| |apply NoDup_singleton].
    intros x Hx ->%list_elem_of_singleton. apply Hnot. by rewrite Heq.
  - apply Forall_app. split; [done|]. by repeat constructor.
Qed.

Lemma foldl_pushDependency_ok l : ∀ st,
  stream_ok matchesSource st →
  stream_ok matchesSource (foldl (pushDependency matchesSource) st l).
Proof.
  induction l as [|p l IH]; intros st Hst; [done|].
  cbn [foldl]. by apply IH, pushDependency_ok.
Qed.

Lemma pushAll_ok st l :
  stream_ok matchesSource st → stream_ok matchesSource (pushAll matchesSource st l).1.
Proof. intros Hst. destruct l as [l|]; [|done]. by apply foldl_pushDependency_ok. Qed.

Lemma _transform_ok filePath analysis st :
  stream_ok matchesSource st →
  stream_ok matchesSource (_transform matchesSource extname filePath analysis st).1.
Proof.
  intros Hst. unfold _transform.
  destruct (decide (filePath ∈ stream_files st)); [done|].
  destruct (decide (extname filePath ≠ ".html")); [done|].
  destruct analysis as [err|allDeps]; [done|].
  pose proof (pushAll_ok st (sd_imports allDeps) Hst) as H1.
  destruct (pushAll matchesSource st (sd_imports allDeps)) as [st1 [[]|e]]; [|done].
  pose proof (pushAll_ok st1 (sd_scripts allDeps) H1) as H2.
  destruct (pushAll matchesSource st1 (sd_scripts allDeps)) as [st2 [[]|e]]; [|done].
  by apply pushAll_ok.
Qed.

(** X13: whatever files go through a [SourceDependenciesStream], with
    whatever answers of the analyzer, the paths it pushes are pairwise
    distinct, none of them matches the source globs, and they are, in the
    same order, the elements of its set [files]. *)
Theorem X13_stream_pushes_each_dependency_once
    (inputs : list (string * StreamAnalysis)) :
  let st := transform_all matchesSource extname new_stream inputs in
  NoDup (stream_pushed st) ∧
  Forall (λ p, matchesSource p = false) (stream_pushed st) ∧
  stream_files st = stream_pushed st.
Proof.
  assert (Hall : ∀ st, stream_ok matchesSource st →
                       stream_ok matchesSource (transform_all matchesSource extname st inputs)).
  { induction inputs as [|i inputs IH]; intros st Hst; [done|].
    unfold transform_all. cbn [foldl]. by apply IH, _transform_ok. }
  destruct (Hall new_stream) as (Heq & Hnd & Hsrc).
  { unfold stream_ok, new_stream. cbn. split_and!; constructor. }
  done.
Qed.

Lemma pushDependency_absorbed st p :
  absorbed matchesSource st p → pushDependency matchesSource st p = st.
Proof.
  intros [Hin|Hsrc]; unfold pushDependency.
  - by rewrite decide_True.
  - destruct (decide (p ∈ stream_files st)); [done|]. by rewrite Hsrc.
Qed.

Lemma pushDependency_absorbs st p : absorbed matchesSource (pushDependency matchesSource st p) p.
Proof.
  unfold pushDependency, absorbed.
  destruct (decide (p ∈ stream_files st)) as [Hin|Hnot]; [by left|].
  destruct (matchesSource p) eqn:Hp; [by right|].
  left. cbn. apply elem_of_app. right. by apply list_elem_of_singleton.
Qed.

Lemma pushDependency_keeps_absorbed st p q :
  absorbed matchesSource st q → absorbed matchesSource (pushDependency matchesSource st p) q.
Proof.
  intros [Hin|Hsrc]; [|by right]. left. unfold pushDependency.
  destruct (decide (p ∈ stream_files st)); [done|].
  destruct (matchesSource p); [done|]. cbn. apply elem_of_app. by left.
Qed.

Lemma foldl_pushDependency_keeps_absorbed l q : ∀ st,
  absorbed matchesSource st q →
  absorbed matchesSource (foldl (pushDependency matchesSource) st l) q.
Proof.
  induction l as [|p l IH]; intros st Hq; [done|].
  cbn [foldl]. by apply IH, pushDependency_keeps_absorbed.
Qed.

Lemma foldl_pushDependency_absorbs l : ∀ st,
  Forall (absorbed matchesSource (foldl (pushDependency matchesSource) st l)) l.
Proof.
  induction l as [|p l IH]; intros st; [constructor|].
  cbn [foldl]. constructor; [|apply IH].
  apply foldl_pushDependency_keeps_absorbed, pushDependency_absorbs.
Qed.

Lemma foldl_pushDependency_absorbed l : ∀ st,
  Forall (absorbed matchesSource st) l → foldl (pushDependency matchesSource) st l = st.
Proof.
  induction l as [|p l IH]; intros st Hl; [done|].
  apply Forall_cons in Hl as [Hp Hl]. cbn [foldl].
  rewrite pushDependency_absorbed by done. by apply IH.
Qed.

(** Pushing a list that may be missing, twice. *)
Lemma pushAll_again st l st' :
  (∀ q, absorbed matchesSource (pushAll matchesSource st l).1 q →
        absorbed matchesSource st' q) →
  pushAll matchesSource st' l = (st', (pushAll matchesSource st l).2).
Proof.
  intros Hmono. destruct l as [l|]; [|done]. cbn in *.
  rewrite foldl_pushDependency_absorbed; [done|].
  eapply Forall_impl; [apply foldl_pushDependency_absorbs|]. exact Hmono.
Qed.

Lemma pushAll_keeps_absorbed st l q :
  absorbed matchesSource st q → absorbed matchesSource (pushAll matchesSource st l).1 q.
Proof. destruct l as [l|]; [|done]. apply foldl_pushDependency_keeps_absorbed. Qed.

Lemma pushAll_again_eq st l st1 r st' :
  pushAll matchesSource st l = (st1, r) →
  (∀ q, absorbed matchesSource st1 q → absorbed matchesSource st' q) →
  pushAll matchesSource st' l = (st', r).
Proof.
  intros Heq Hmono. rewrite (pushAll_again st l st'); rewrite Heq; done.
Qed.

Lemma pushAll_keeps_absorbed_eq st l st1 r q :
  pushAll matchesSource st l = (st1, r) →
  absorbed matchesSource st q → absorbed matchesSource st1 q.
Proof.
  intros Heq Hq. pose proof (pushAll_keeps_absorbed st l q Hq) as H.
  by rewrite Heq in H.
Qed.

Lemma _transform_again (filePath : string) (analysis : StreamAnalysis) (st : Stream) :
  let first := _transform matchesSource extname filePath analysis st in
  filePath ∉ stream_files first.1 →
  _transform matchesSource extname filePath analysis first.1 = first.
Proof.
  cbv zeta. unfold _transform.
  destruct (decide (filePath ∈ stream_files st)) as [Hin|Hnin]; [done|].
  destruct (decide (extname filePath ≠ ".html")) as [Hext|Hhtml].
  { intros _. cbn [fst]. by rewrite decide_False by done. }
  destruct analysis as [err|allDeps].
  { intros _. cbn [fst]. by rewrite !decide_False by done. }
  destruct (pushAll matchesSource st (sd_imports allDeps)) as [st1 r1] eqn:H1.
  destruct r1 as [[]|e1]; cycle 1.
  { cbn [fst]. intros Hnot. rewrite !decide_False by done.
    by rewrite (pushAll_again_eq _ _ _ _ st1 H1). }
  destruct (pushAll matchesSource st1 (sd_scripts allDeps)) as [st2 r2] eqn:H2.
  assert (H12 : ∀ q, absorbed matchesSource st1 q → absorbed matchesSource st2 q).
  { intros q. by apply pushAll_keeps_absorbed_eq with (sd_scripts allDeps) r2. }
  destruct r2 as [[]|e2]; cycle 1.
  { cbn [fst]. intros Hnot. rewrite !decide_False by done.
    rewrite (pushAll_again_eq _ _ _ _ st2 H1) by exact H12.
    by rewrite (pushAll_again_eq _ _ _ _ st2 H2). }
  destruct (pushAll matchesSource st2 (sd_styles allDeps)) as [st3 r3] eqn:H3.
  assert (H23 : ∀ q, absorbed matchesSource st2 q → absorbed matchesSource st3 q).
  { intros q. by apply pushAll_keeps_absorbed_eq with (sd_styles allDeps) r3. }
  cbn [fst]. intros Hnot. rewrite !decide_False by done.
  rewrite (pushAll_again_eq _ _ _ _ st3 H1) by (intros q Hq; by apply H23, H12).
  rewrite (pushAll_again_eq _ _ _ _ st3 H2) by exact H23.
  by rewrite (pushAll_again_eq _ _ _ _ st3 H3).
Qed.

(** X14: a file that goes through the stream a second time, with the same
    answer of the analyzer, pushes nothing more: the stream is left as the
    first passage left it. *)
Theorem X14_second_passage_pushes_nothing
    (filePath : string) (analysis : StreamAnalysis) (st : Stream) :
  let first := _transform matchesSource extname filePath analysis st in
  (_transform matchesSource extname filePath analysis first.1).1 = first.1.
Proof.
  cbv zeta.
  destruct (decide (filePath ∈
              stream_files (_transform matchesSource extname filePath analysis st).1))
    as [Hin|Hnot].
  - unfold _transform at 1. by rewrite decide_True.
  - by rewrite _transform_again.
Qed.
End SourceDependenciesStream.

(** ** [BuildBundler] *)

Lemma mapFiles_Exn env incoming e :
  foldl (λ acc file, match acc with
                     | Val m => _mapFile env file m
                     | Exn e => Exn e
                     end) (Exn e) incoming = Exn e.
Proof. induction incoming as [|f l IH]; [done|]. exact IH. Qed.

Lemma mapFiles_entries env entries : ∀ m,
  Forall (λ e, resolvePath env (path e.2) = Val e.1) entries →
  mapFiles env entries.*2 m = Val (foldl (λ m e, <[e.1 := e.2]> m) m entries).
Proof.
  unfold mapFiles. induction entries as [|[u f] entries IH]; intros m Hall; [done|].
  apply Forall_cons in Hall as [Hu Hall]. cbn in Hu. cbn [fmap list_fmap foldl].
  unfold _mapFile at 2. cbn. rewrite Hu. by apply IH.
Qed.

Lemma lookup_foldl_insert_notin u (entries : list (string * File)) : ∀ m : gmap string File,
  u ∉ entries.*1 → foldl (λ m e, <[e.1 := e.2]> m) m entries !! u = m !! u.
Proof.
  induction entries as [|[k f] entries IH]; intros m Hnot; [done|].
  cbn in Hnot. apply not_elem_of_cons in Hnot as [Hne Hnot].
  cbn [foldl]. rewrite IH by done. by apply lookup_insert_ne.
Qed.

Lemma lookup_foldl_insert u f (entries : list (string * File)) : ∀ m : gmap string File,
  NoDup entries.*1 → (u, f) ∈ entries →
  foldl (λ m e, <[e.1 := e.2]> m) m entries !! u = Some f.
Proof.
  induction entries as [|[k g] entries IH]; intros m Hnd Hin.
  - by apply elem_of_nil in Hin.
  - cbn in Hnd. apply NoDup_cons in Hnd as [Hk Hnd]. cbn [foldl].
    apply elem_of_cons in Hin as [Heq|Hin].
    + injection Heq as -> ->. rewrite lookup_foldl_insert_notin by done.
      apply lookup_insert_eq.
    + by apply IH.
Qed.

Lemma omap_all_None {A B} (g : A → option B) (l : list A) :
  (∀ x, x ∈ l → g x = None) → omap g l = [].
Proof.
  induction l as [|a l IH]; intros Hg; [done|].
  cbn. rewrite (Hg a) by apply list_elem_of_here.
  apply IH. intros x Hx. by apply Hg, list_elem_of_further.
Qed.

(** X15: when the files the analyzer holds come through the bundler as
    they are, each under the url the analyzer holds it under, the bundler
    maps them all and reports no file as changed since the analysis,
    whatever its map held before. *)
Theorem X15_unchanged_files_are_not_reported
    (env : Env) (relative : ResolvedUrl → string)
    (analyzerFiles : list (ResolvedUrl * File)) (_files : gmap string File) :
  NoDup analyzerFiles.*1 →
  Forall (λ e, resolvePath env (path e.2) = Val e.1) analyzerFiles →
  ∃ m, mapFiles env analyzerFiles.*2 _files = Val m ∧
       (∀ u f, (u, f) ∈ analyzerFiles → m !! u = Some f) ∧
       _getFilesChangedSinceInitialAnalysis relative analyzerFiles m = [].
Proof.
  intros Hnd Hall. eexists. split; [by apply mapFiles_entries|].
  assert (Hlook : ∀ u f, (u, f) ∈ analyzerFiles →
            foldl (λ m e, <[e.1 := e.2]> m) _files analyzerFiles !! u = Some f).
  { intros u f Hin. by apply lookup_foldl_insert. }
  split; [exact Hlook|].
  apply omap_all_None. intros [u f] Hin. cbn. rewrite (Hlook u f Hin).
  by rewrite decide_False by (intros Hne; by apply Hne).
Qed.

Lemma lookup_foldl_delete (l : list string) u : ∀ m : gmap string File,
  foldl (λ m filename, delete filename m) m l !! u
  = if decide (u ∈ l) then None else m !! u.
Proof.
  induction l as [|k l IH]; intros m; cbn [foldl].
  - by rewrite decide_False by apply not_elem_of_nil.
  - rewrite IH. destruct (decide (u ∈ l)) as [Hin|Hnot].
    + by rewrite decide_True by (by apply list_elem_of_further).
    + destruct (decide (u = k)) as [->|Hne].
      * rewrite decide_True by apply list_elem_of_here. apply lookup_delete_eq.
      * rewrite decide_False by (by intros [?|?]%elem_of_cons).
        by apply lookup_delete_ne.
Qed.

(** X16: after [_unmapBundledFiles] a url that some bundle of the
    manifest inlined, as an import, a script or a style, is not in the map
    of the bundler, and every other url has the file it had. *)
Theorem X16_inlined_files_are_unmapped
    (bundles : list Bundle) (_files : gmap string File) (u : ResolvedUrl) :
  _unmapBundledFiles bundles _files !! u
  = if decide (Exists (λ b, u ∈ inlined b) bundles) then None else _files !! u.
Proof.
  unfold _unmapBundledFiles. revert _files.
  induction bundles as [|b bundles IH]; intros m; cbn [foldl].
  - rewrite decide_False; [done|]. by intros ?%Exists_nil.
  - rewrite IH, lookup_foldl_delete.
    destruct (decide (Exists (λ b', u ∈ inlined b') bundles)) as [Hex|Hnot].
    + rewrite decide_True; [done|]. by apply Exists_cons_tl.
    + destruct (decide (u ∈ inlined b)) as [Hu|Hu].
      * rewrite decide_True; [done|]. by apply Exists_cons_hd.
      * rewrite decide_False; [done|]. by intros [?|?]%Exists_cons.
Qed.

(** ** [writeServiceWorker] *)

Lemma prefix_app (r x : string) : String.prefix r (r +:+ x) = true.
Proof.
  induction r as [|a r IH]; [by destruct x|].
  rewrite string_app_cons. cbn [String.prefix].
  destruct (ascii_dec a a) as [_|Hne]; [exact IH|by contradiction Hne].
Qed.

Lemma string_drop_app (r x : string) : string_drop (String.length r) (r +:+ x) = x.
Proof. induction r as [|a r IH]; [by destruct x|]. exact IH. Qed.

Lemma precacheFiles_spec o :
  NoDup (precacheFiles o) ∧
  ∀ x, x ∈ precacheFiles o ↔
       x ∈ default [] (staticFileGlobs o) ∨ x ∈ strippedAssets o ∨
       x = string_drop (String.length (root o)) (entrypoint o).
Proof.
  unfold precacheFiles. cbv zeta.
  destruct (foldl_set_add_spec (default [] (staticFileGlobs o)) []) as [Hnd1 Hmem1].
  destruct (foldl_set_add_spec (strippedAssets o)
              (foldl (λ acc p, set_add p acc) [] (default [] (staticFileGlobs o))))
    as [Hnd2 Hmem2].
  split.
  - apply NoDup_set_add, Hnd2, Hnd1. constructor.
  - intros x. rewrite elem_of_set_add, Hmem2, Hmem1. split.
    + intros [->|[ [Hin|?] |?] ]; [by right; right| |by left|by right; left].
      by apply elem_of_nil in Hin.
    + intros [?|[?| ->] ]; [right; left; by right|right; by right|by left].
Qed.

(** X17: the set [precacheFiles] of [writeServiceWorker] holds no path
    twice, and in the list handed to the precache generator an entry point
    and an asset that lie under [root] are at the same relative place
    under [buildRoot], and so is every static file glob of the
    configuration. *)
Theorem X17_precache_list_relocates_under_build_root
    (pathJoin : string → string → string) (o : SWOptions)
    (assets : list string) (rel rel_asset : string) :
  entrypoint o = root o +:+ rel →
  precachedAssets o = Some assets →
  root o +:+ rel_asset ∈ assets →
  NoDup (precacheFiles o) ∧
  pathJoin (buildRoot o) rel ∈ precacheList pathJoin o ∧
  pathJoin (buildRoot o) rel_asset ∈ precacheList pathJoin o ∧
  ∀ g, g ∈ default [] (staticFileGlobs o) →
       pathJoin (buildRoot o) g ∈ precacheList pathJoin o.
Proof.
  intros Hentry Hassets Hasset.
  destruct (precacheFiles_spec o) as [Hnd Hmem].
  split_and!; [done| | |].
  - apply list_elem_of_fmap. exists rel. split; [done|]. apply Hmem.
    right. right. by rewrite Hentry, string_drop_app.
  - apply list_elem_of_fmap. exists rel_asset. split; [done|]. apply Hmem.
    right. left. unfold strippedAssets. rewrite Hassets. cbn.
    apply list_elem_of_fmap. exists (root o +:+ rel_asset). split; [|done].
    by rewrite prefix_app, string_drop_app.
  - intros g Hg. apply list_elem_of_fmap. exists g. split; [done|]. apply Hmem. by left.
Qed.

(** ** The further properties on the sample project *)

Lemma X3_witness :
  ∃ s', resolveFile sample_env style_css style_requested = (s', Val tt) ∧
        promises s' !! 0 = Some (Fulfilled "body{}") ∧
        dget "style.css" (deferredFiles s') = None ∧
        files s' !! "style.css" = Some style_css.
Proof.
  destruct (X3_arrival_fulfils_deferred_promise sample_env {[ "index.html" ]}
              [OpLoad "style.css"] style_css "style.css" "style.css" 0)
    as (s' & H1 & H2 & H3 & H4 & _).
  - reflexivity.
  - reflexivity.
  - by_compute.
  - exists s'. split_and!; assumption.
Defined.

Lemma X4_witness :
  promises (run sample_env sample_start
              [OpLoad "style.css"; OpResolveFile style_css; OpLoad "style.css"])
    = [Fulfilled "body{}"; Fulfilled "body{}"] ∧
  _dependenciesStream
    (run sample_env sample_start
       [OpLoad "style.css"; OpResolveFile style_css; OpLoad "style.css"])
    = ["style.css"].
Proof.
  destruct (X4_request_arrival_request sample_env style_css "style.css" sample_start)
    as (H1 & H2 & _).
  - by_compute.
  - by_compute.
  - by_compute.
  - reflexivity.
  - reflexivity.
  - split; [exact H1|exact H2].
Defined.

Lemma X5_witness :
  ∃ f, files (run sample_env index_resolved [OpSourcesStreamComplete]) !! "index.html"
         = Some f ∧
       (load sample_env "index.html"
          (run sample_env index_resolved [OpSourcesStreamComplete])).2 = Val 0.
Proof.
  destruct (X5_stored_url_is_served_at_once sample_env index_resolved
              [OpSourcesStreamComplete] "index.html") as (f & Hf & Hload).
  - by_compute.
  - exists (mkFile "index.html" "old"). by_compute.
  - exists f. split; [exact Hf|]. rewrite Hload. reflexivity.
Defined.

Lemma X6_witness :
  ∃ url, OpLoad url ∈ [OpLoad "style.css"] ∧
         "style.css" = pathFromResolvedUrl sample_env url ∧
         isSource sample_env "style.css" = false.
Proof.
  apply (X6_only_requested_dependencies_are_pushed sample_env {[ "index.html" ]}
           [OpLoad "style.css"] "style.css").
  by_decide.
Defined.

Lemma X7_witness :
  _dependenciesStreamEnded index_analyzed = true ∧
  ∃ deps, fragmentToFullDeps (_dependencyAnalysis index_analyzed) !! "index.html"
            = Some deps.
Proof.
  destruct (X7_resolved_index_covers_all_fragments sample_env {[ "index.html" ]}
              [OpAnalyzeFile index_html (AnalysisOk [] [])]
              (_dependencyAnalysis index_analyzed))
    as (_ & Hended & Hall).
  - by_compute.
  - split; [exact Hended|].
    destruct (Hall "index.html") as (deps & Hdeps & _); [by_decide|].
    by exists deps.
Defined.

Lemma X8_witness :
  analyzeDependencies (run sample_env index_analyzed [OpLoad "style.css"])
    = Some (_dependencyAnalysis index_analyzed).
Proof.
  destruct (X8_resolved_index_is_final sample_env {[ "index.html" ]}
              [OpAnalyzeFile index_html (AnalysisOk [] [])] [OpLoad "style.css"]
              (_dependencyAnalysis index_analyzed))
    as (Hres & _ & _).
  - by_compute.
  - exact Hres.
Defined.

Lemma X9_witness :
  ∃ s', analyzeFile sample_env index_html
          (AnalysisOk [] [mkFeature "shared.html" "html-import"]) sample_start
          = (s', Val tt) ∧
        analyzeDependencies s' = Some (_dependencyAnalysis s') ∧
        _dependenciesStreamEnded s' = true.
Proof.
  destruct (X9_last_fragment_resolves_index sample_env index_html "index.html" []
              [mkFeature "shared.html" "html-import"] sample_start)
    as (s' & H1 & H2 & _ & _ & H5 & _).
  - reflexivity.
  - reflexivity.
  - reflexivity.
  - reflexivity.
  - reflexivity.
  - reflexivity.
  - exists s'. split_and!; assumption.
Defined.

Lemma X12_witness :
  ("index.html" ∉ allFragmentsToAnalyze index_analyzed) ∧
  fragmentToFullDeps
    (_dependencyAnalysis (run sample_env index_analyzed [OpLoad "style.css"]))
    !! "index.html" = Some (mkDeps [] [] []).
Proof.
  apply (X12_index_entry_is_recorded_once sample_env {[ "index.html" ]}
           [OpAnalyzeFile index_html (AnalysisOk [] [])] [OpLoad "style.css"]
           "index.html" (mkDeps [] [] [])).
  by_compute.
Defined.

Lemma X15_witness :
  ∃ m, mapFiles sample_env [index_html] ∅ = Val m ∧
       (∀ u f, (u, f) ∈ [("index.html", index_html)] → m !! u = Some f) ∧
       _getFilesChangedSinceInitialAnalysis (λ u, u) [("index.html", index_html)] m = [].
Proof.
  apply (X15_unchanged_files_are_not_reported sample_env (λ u, u)
           [("index.html", index_html)] ∅).
  - by_decide.
  - repeat constructor.
Defined.

Lemma X17_witness :
  sample_join "build" "/index.html" ∈ precacheList sample_join sample_options ∧
  sample_join "build" "/src/app.js" ∈ precacheList sample_join sample_options ∧
  NoDup (precacheFiles sample_options).
Proof.
  destruct (X17_precache_list_relocates_under_build_root sample_join sample_options
              ["/proj/src/app.js"; "/other/lib.js"] "/index.html" "/src/app.js")
    as (Hnd & Hentry & Hasset & _).
  - reflexivity.
  - reflexivity.
  - by_decide.
  - split_and!; assumption.
Defined.

(** The list of the sample options: the asset outside the root keeps its
    path. *)
Example precache_list_of_sample_options :
  precacheList sample_join sample_options
  = ["build/images/*"; "build/src/app.js"; "build/other/lib.js"; "build/index.html"].
Proof. reflexivity. Qed.
